(** * Document intelligence: section segmentation, filtering and ranking

    A shallow embedding of [document_intelligence.py] (class
    [DocumentIntelligenceSystem]) and the properties of its text heuristics
    and of its relevance ranker.

    Conventions of the embedding.
    - A Python [str] is a [string]; each character is read as a code point
      in the range 0..255 (the Latin-1 part of Unicode), and the character
      classes below are Python's own on that range.
    - A Python [int] is a [Z]; [len] returns a [Z].
    - A statement that can raise is a computation in the [exc] monad.
    - Similarity scores are finite floats, read as the rationals ([Q])
      they are.  The product of a score by a weight belongs to the
      embedding provider and is a field of its model, so that no
      statement depends on how it rounds. *)

From Stdlib Require Import String Ascii List ZArith QArith Bool Lia.
From Stdlib Require Import Sorting.Sorted Sorting.Permutation.
Import ListNotations.

Set Implicit Arguments.

Local Open Scope string_scope.
Local Open Scope Z_scope.

(** ** Exceptions *)

Inductive PyExc : Type :=
| ZeroDivisionError
| IndexError.

Inductive exc (A : Type) : Type :=
| Ok (a : A)
| Raise (e : PyExc).

Arguments Ok {A} a.
Arguments Raise {A} e.

Definition bind {A B : Type} (m : exc A) (k : A -> exc B) : exc B :=
  match m with
  | Ok a => k a
  | Raise e => Raise e
  end.

Notation "x <- m ;; k" := (bind m (fun x => k))
  (at level 61, m at next level, right associativity).

(** ** Python string primitives *)

Module PyStr.

Definition code (c : ascii) : N := N_of_ascii c.

Definition in_range (lo hi : N) (c : ascii) : bool :=
  ((lo <=? code c) && (code c <=? hi))%N.

(** [str.isspace] on one character, which is also the regex class [\s]:
    TAB..CR, FS..US, SPACE, NEL and NBSP. *)
Definition is_space (c : ascii) : bool :=
  in_range 9 13 c || in_range 28 32 c
  || (code c =? 133)%N || (code c =? 160)%N.

(** The regex class [\d]: the decimal digits. *)
Definition is_digit (c : ascii) : bool := in_range 48 57 c.

(** The regex classes [[A-Z]] and [[a-z]]. *)
Definition is_AZ (c : ascii) : bool := in_range 65 90 c.
Definition is_az (c : ascii) : bool := in_range 97 122 c.

(** [str.isupper] and [str.islower] on one character. *)
Definition is_upper (c : ascii) : bool :=
  is_AZ c || in_range 192 214 c || in_range 216 222 c.

Definition is_lower (c : ascii) : bool :=
  is_az c || (code c =? 170)%N || (code c =? 181)%N || (code c =? 186)%N
  || in_range 223 246 c || in_range 248 255 c.

Definition len (s : string) : Z := Z.of_nat (String.length s).

Definition is_empty (s : string) : bool :=
  match s with
  | EmptyString => true
  | String _ _ => false
  end.

(** Truth value of a [str]: non-empty. *)
Definition truthy (s : string) : bool := negb (is_empty s).

Fixpoint lstrip (s : string) : string :=
  match s with
  | EmptyString => EmptyString
  | String c s' => if is_space c then lstrip s' else s
  end.

Fixpoint rstrip (s : string) : string :=
  match s with
  | EmptyString => EmptyString
  | String c s' =>
      let r := rstrip s' in
      if is_empty r && is_space c then EmptyString else String c r
  end.

(** [s.strip()] *)
Definition strip (s : string) : string := rstrip (lstrip s).

(** Splitting at every character of a class, empty pieces kept:
    [s.split(sep)] for a one-character [sep], and [re.split] on a
    character class. *)
Fixpoint split_by (p : ascii -> bool) (s : string) : list string :=
  match s with
  | EmptyString => [EmptyString]
  | String c s' =>
      if p c then EmptyString :: split_by p s'
      else match split_by p s' with
           | h :: t => String c h :: t
           | [] => [String c EmptyString]
           end
  end.

Definition split (sep : ascii) (s : string) : list string :=
  split_by (Ascii.eqb sep) s.

(** [s.split()]: the maximal runs of non-whitespace characters. *)
Fixpoint split_ws (s : string) : list string :=
  match s with
  | EmptyString => []
  | String c s' =>
      if is_space c then split_ws s'
      else match s' with
           | EmptyString => [String c EmptyString]
           | String d _ =>
               if is_space d then String c EmptyString :: split_ws s'
               else match split_ws s' with
                    | w :: ws => String c w :: ws
                    | [] => [String c EmptyString]
                    end
           end
  end.

(** Number of characters of a class: [s.count(c)] for a one-character
    [c], and [len(re.findall(cls, s))] for a character class. *)
Fixpoint count_by (p : ascii -> bool) (s : string) : Z :=
  match s with
  | EmptyString => 0
  | String c s' => (if p c then 1 else 0) + count_by p s'
  end.

Definition count (c : ascii) (s : string) : Z := count_by (Ascii.eqb c) s.

(** [s[:n]] for [n >= 0]. *)
Fixpoint take (n : nat) (s : string) : string :=
  match n, s with
  | O, _ => EmptyString
  | _, EmptyString => EmptyString
  | S n', String c s' => String c (take n' s')
  end.

(** [sep.join(parts)] *)
Fixpoint join (sep : string) (parts : list string) : string :=
  match parts with
  | [] => EmptyString
  | [p] => p
  | p :: rest => p ++ sep ++ join sep rest
  end.

Fixpoint forallb_str (p : ascii -> bool) (s : string) : bool :=
  match s with
  | EmptyString => true
  | String c s' => p c && forallb_str p s'
  end.

Fixpoint existsb_str (p : ascii -> bool) (s : string) : bool :=
  match s with
  | EmptyString => false
  | String c s' => p c || existsb_str p s'
  end.

(** [s.isupper()]: no lowercase character and at least one uppercase. *)
Definition isupper (s : string) : bool :=
  negb (existsb_str is_lower s) && existsb_str is_upper s.

Definition lower_char (c : ascii) : ascii :=
  if is_upper c then ascii_of_N (code c + 32) else c.

(** [s.lower()] *)
Fixpoint lower (s : string) : string :=
  match s with
  | EmptyString => EmptyString
  | String c s' => String (lower_char c) (lower s')
  end.

Fixpoint starts_with (p s : string) : bool :=
  match p, s with
  | EmptyString, _ => true
  | String _ _, EmptyString => false
  | String a p', String b s' => Ascii.eqb a b && starts_with p' s'
  end.

(** [needle in s] *)
Fixpoint contains (needle s : string) : bool :=
  starts_with needle s
  || match s with
     | EmptyString => false
     | String _ s' => contains needle s'
     end.

End PyStr.

(** ** Regular expressions, as [re.match] uses them *)

Module Re.

(** The fragment of the pattern language the program uses.  [Eol] is
    [$]: the end of the text, or just before a newline that ends it. *)
Inductive regex : Type :=
| Void
| Eps
| Cls (p : ascii -> bool)
| Cat (r1 r2 : regex)
| Alt (r1 r2 : regex)
| Star (r : regex)
| Eol.

Definition Plus (r : regex) : regex := Cat r (Star r).

Definition newline : ascii := ascii_of_N 10.

Definition at_eol (rest : string) : bool :=
  match rest with
  | EmptyString => true
  | String c EmptyString => Ascii.eqb c newline
  | _ => false
  end.

(** [nullable rest r]: [r] matches the empty word when [rest] is what
    remains of the text. *)
Fixpoint nullable (rest : string) (r : regex) : bool :=
  match r with
  | Void => false
  | Eps => true
  | Cls _ => false
  | Cat r1 r2 => nullable rest r1 && nullable rest r2
  | Alt r1 r2 => nullable rest r1 || nullable rest r2
  | Star _ => true
  | Eol => at_eol rest
  end.

(** Derivative by the character [c] that is followed by [rest]. *)
Fixpoint deriv (c : ascii) (rest : string) (r : regex) : regex :=
  match r with
  | Void => Void
  | Eps => Void
  | Cls p => if p c then Eps else Void
  | Cat r1 r2 =>
      if nullable (String c rest) r1
      then Alt (Cat (deriv c rest r1) r2) (deriv c rest r2)
      else Cat (deriv c rest r1) r2
  | Alt r1 r2 => Alt (deriv c rest r1) (deriv c rest r2)
  | Star r1 => Cat (deriv c rest r1) (Star r1)
  | Eol => Void
  end.

(** [re.match(r, s)] finds a match: some prefix of [s] matches [r]. *)
Fixpoint re_match (r : regex) (s : string) : bool :=
  nullable s r
  || match s with
     | EmptyString => false
     | String c s' => re_match (deriv c s' r) s'
     end.

(** What it is for a word to match: [matches r w rest] when [w] matches
    [r] and [rest] is the text that follows [w]. *)
Inductive matches : regex -> string -> string -> Prop :=
| M_Eps rest : matches Eps "" rest
| M_Cls p c rest : p c = true -> matches (Cls p) (String c "") rest
| M_Cat r1 r2 w1 w2 rest :
    matches r1 w1 (w2 ++ rest) -> matches r2 w2 rest ->
    matches (Cat r1 r2) (w1 ++ w2) rest
| M_AltL r1 r2 w rest : matches r1 w rest -> matches (Alt r1 r2) w rest
| M_AltR r1 r2 w rest : matches r2 w rest -> matches (Alt r1 r2) w rest
| M_Star_nil r rest : matches (Star r) "" rest
| M_Star_cons r w1 w2 rest :
    matches r w1 (w2 ++ rest) -> matches (Star r) w2 rest ->
    matches (Star r) (w1 ++ w2) rest
| M_Eol rest : at_eol rest = true -> matches Eol "" rest.

End Re.

(** ** The program *)

Import PyStr Re.

(** *** Section segmentation (4.1) *)

(** The patterns of [_is_section_header]; a leading [^] adds nothing
    under [re.match]. *)

Definition chr (c : ascii) : regex := Cls (Ascii.eqb c).

(** The class [[A-Za-z\s&-]] *)
Definition title_char (c : ascii) : bool :=
  is_AZ c || is_az c || is_space c || Ascii.eqb c "&" || Ascii.eqb c "-".

(** The class [[IVX]] *)
Definition roman_char (c : ascii) : bool :=
  Ascii.eqb c "I" || Ascii.eqb c "V" || Ascii.eqb c "X".

(** The class [[A-Z\s]] *)
Definition caps_char (c : ascii) : bool := is_AZ c || is_space c.

(** [^[A-Z][A-Za-z\s&-]+$] *)
Definition pattern_title_words : regex :=
  Cat (Cls is_AZ) (Cat (Plus (Cls title_char)) Eol).

(** [^N+\.\s*[A-Z]] for a class [N] of numerals *)
Definition marker (numeral : ascii -> bool) : regex :=
  Cat (Plus (Cls numeral))
    (Cat (chr ".") (Cat (Star (Cls is_space)) (Cls is_AZ))).

(** [^\d+\.\s*[A-Z]] *)
Definition pattern_decimal_marker : regex := marker is_digit.

(** [^[IVX]+\.\s*[A-Z]] *)
Definition pattern_roman_marker : regex := marker roman_char.

(** [^[A-Z\s]+$] *)
Definition pattern_all_caps : regex := Cat (Plus (Cls caps_char)) Eol.

(** [^[A-Z][a-z]+\s+[A-Z][a-z]+] *)
Definition pattern_two_capitalized : regex :=
  Cat (Cls is_AZ)
    (Cat (Plus (Cls is_az))
       (Cat (Plus (Cls is_space))
          (Cat (Cls is_AZ) (Plus (Cls is_az))))).

Definition patterns : list regex :=
  [ pattern_title_words; pattern_decimal_marker; pattern_roman_marker;
    pattern_all_caps; pattern_two_capitalized ].

(** The [for pattern in patterns] loop: [continue] moves on to the next
    pattern, running out of patterns falls through to [return False]. *)
Fixpoint header_loop (ps : list regex) (line : string) : bool :=
  match ps with
  | [] => false
  | p :: ps' =>
      if re_match p line then
        if isupper line && (len line >? 50) then header_loop ps' line
        else if count "." line >? 3 then header_loop ps' line
        else true
      else header_loop ps' line
  end.

Definition _is_section_header (line : string) : bool :=
  if (len line <? 3) || (len line >? 150) then false
  else header_loop patterns line.

(** First element of a list, after [strip], whose length is in
    [lo..hi]: a [for] loop that returns at the first hit. *)
Fixpoint first_stripped_in (lo hi : Z) (l : list string) : option string :=
  match l with
  | [] => None
  | s :: l' =>
      let s := strip s in
      if (lo <=? len s) && (len s <=? hi) then Some s
      else first_stripped_in lo hi l'
  end.

Definition is_terminator (c : ascii) : bool :=
  Ascii.eqb c "." || Ascii.eqb c "!" || Ascii.eqb c "?".

Definition _extract_meaningful_title (text : string) : string :=
  let sentences := split_by is_terminator text in
  match first_stripped_in 20 100 (firstn 3 sentences) with
  | Some sentence => sentence
  | None =>
      let lines := split newline text in
      match first_stripped_in 10 100 lines with
      | Some line => line
      | None =>
          let words := firstn 10 (split_ws text) in
          join " " words
          ++ (if Z.of_nat (length (split_ws text)) >? 10 then "..." else "")
      end
  end.

Record PageSection : Type := mkSection { title : string; text : string }.

(** The state of the loop of [_extract_sections_from_page]: the list
    [sections] and the dict [current]. *)
Record SegState : Type :=
  mkSeg { sections : list PageSection; current : PageSection }.

(** [a or b] on strings *)
Definition or_else (a b : string) : string := if truthy a then a else b.

Definition seg_step (st : SegState) (raw : string) : SegState :=
  let line := strip raw in
  if is_empty line then st
  else if _is_section_header line then
    let cur := current st in
    let secs :=
      if truthy (strip (text cur))
      then (sections st
            ++ [mkSection (or_else (title cur) (take 100 line))
                  (strip (text cur))])%list
      else sections st in
    mkSeg secs (mkSection line "")
  else
    let cur := current st in
    mkSeg (sections st) (mkSection (title cur) (text cur ++ line ++ " ")).

Definition seg_loop (lines : list string) (st : SegState) : SegState :=
  fold_left seg_step lines st.

Definition seg_flush (st : SegState) : list PageSection :=
  let cur := current st in
  if truthy (strip (text cur))
  then (sections st
        ++ [mkSection (or_else (title cur) "Content") (strip (text cur))])%list
  else sections st.

Definition _extract_sections_from_page (txt : string) : list PageSection :=
  let lines := split newline txt in
  let secs := seg_flush (seg_loop lines (mkSeg [] (mkSection "" ""))) in
  match secs with
  | [] =>
      if truthy (strip txt)
      then [mkSection (_extract_meaningful_title txt) (strip txt)]
      else []
  | _ => secs
  end.

(** *** Section filter (4.2) *)

(** [a / b] on ints.  The quotient is kept exact: for a text of fewer
    than 2^50 characters, comparing the float quotient with the float
    [0.1] or [0.3] gives what comparing the exact quotient with [1/10]
    or [3/10] gives. *)
Definition truediv (a b : Z) : exc Q :=
  if b =? 0 then Raise ZeroDivisionError
  else Ok (inject_Z a / inject_Z b)%Q.

Definition Qgtb (x y : Q) : bool := negb (Qle_bool x y).

Definition any (l : list bool) : bool := existsb (fun b => b) l.

Definition _is_meaningful_section (txt : string) : exc bool :=
  let few_words := Z.of_nat (length (split_ws txt)) <? 10 in
  newlines <-
    (if len txt >? 0
     then r <- truediv (count newline txt) (len txt) ;; Ok (Qgtb r (1 # 10))
     else Ok false) ;;
  digits <-
    (if len txt >? 0
     then r <- truediv (count_by is_digit txt) (len txt) ;;
          Ok (Qgtb r (3 # 10))
     else Ok false) ;;
  let noise := [few_words; newlines; digits] in
  Ok (negb (any noise)).

(** *** Content classifier (4.3) *)

Definition _classify_content_type (txt : string) : string :=
  let txt := lower txt in
  if contains "abstract" txt || contains "summary" txt then "abstract"
  else if contains "introduction" txt || contains "background" txt
  then "introduction"
  else if contains "method" txt || contains "approach" txt
  then "methodology"
  else if contains "result" txt || contains "finding" txt then "results"
  else if contains "conclusion" txt || contains "discussion" txt
  then "conclusion"
  else if contains "reference" txt || contains "bibliography" txt
  then "references"
  else "content".

(** The dict that [extract_text_chunks] appends; [content_type] is read
    back with [dict.get], so it is a key that may be missing. *)
Record Chunk : Type := mkChunk {
  document : string;
  chunk_text : string;
  section_title : string;
  page : Z;
  content_type : option string
}.

(** The inner loop of [extract_text_chunks]: the sections of one page
    that the filter keeps, classified. *)
Fixpoint keep_sections (doc : string) (page_num : Z)
    (secs : list PageSection) : exc (list Chunk) :=
  match secs with
  | [] => Ok []
  | s :: secs' =>
      keep <- _is_meaningful_section (text s) ;;
      rest <- keep_sections doc page_num secs' ;;
      Ok (if keep
          then mkChunk doc (text s) (title s) page_num
                 (Some (_classify_content_type (text s))) :: rest
          else rest)
  end.

(** The body of the page loop of [extract_text_chunks]. *)
Definition page_chunks (doc : string) (page_num : Z) (txt : string)
    : exc (list Chunk) :=
  if is_empty txt then Ok []
  else keep_sections doc page_num (_extract_sections_from_page txt).

(** *** Query builder (4.4) *)

(** The [persona] and [job] dicts; a missing key is [None]. *)
Record Persona : Type := mkPersona {
  role : option string;
  expertise_areas : option (list string);
  focus_areas : option (list string)
}.

Record Job : Type := mkJob {
  task : option string;
  requirements : option (list string)
}.

(** [d.get(key, default)] *)
Definition get {A : Type} (field : option A) (default : A) : A :=
  match field with
  | Some v => v
  | None => default
  end.

(** Truth value of a list: non-empty. *)
Definition nonempty {A : Type} (l : list A) : bool :=
  match l with
  | [] => false
  | _ :: _ => true
  end.

(** [if items: parts.append(prefix + ', '.join(items))] *)
Definition append_if (parts : list string) (prefix : string)
    (items : list string) : list string :=
  if nonempty items then (parts ++ [(prefix ++ join ", " items)%string])%list
  else parts.

Definition create_persona_query (persona : Persona) (job : Job) : string :=
  let role := get (role persona) "" in
  let expertise := get (expertise_areas persona) [] in
  let focus := get (focus_areas persona) [] in
  let task := get (task job) "" in
  let requirements := get (requirements job) [] in
  let query_parts := [task] in
  let query_parts := append_if query_parts "Expertise in: " expertise in
  let query_parts := append_if query_parts "Focus on: " focus in
  let query_parts := append_if query_parts "Requirements: " requirements in
  let query_parts := (query_parts ++ [("Role: " ++ role)%string])%list in
  join " | " query_parts.

(** *** Relevance ranker (4.5) *)

(** The embedding provider as the ranker sees it: for a query and a
    batch of texts, one similarity score per text
    ([util.pytorch_cos_sim(encode(query), encode(texts))[0]]), and the
    product of a score by a Python float ([score * weight], in the
    arithmetic of the provider, whatever its rounding). *)
Record EmbeddingModel : Type := mkModel {
  scores : string -> list string -> list Q;
  times : Q -> Q -> Q;
  scores_length : forall q ts, length (scores q ts) = length ts
}.

Record RankedSection : Type := mkRanked {
  ranked : Chunk;
  importance_rank : Z;
  relevance_score : Q
}.

Definition weights : list (string * Q) :=
  [ ("abstract", 12 # 10); ("introduction", 11 # 10);
    ("methodology", 13 # 10); ("results", 13 # 10);
    ("conclusion", 12 # 10); ("references", 5 # 10);
    ("content", 1 # 1) ]%Q.

(** [d.get(key, default)] on a dict literal *)
Fixpoint dict_get {V : Type} (d : list (string * V)) (key : string)
    (default : V) : V :=
  match d with
  | [] => default
  | (k, v) :: d' => if String.eqb k key then v else dict_get d' key default
  end.

Definition weight_of (section : Chunk) : Q :=
  dict_get weights (get (content_type section) "content") 1%Q.

(** The loop that fills [weighted_scores], from index [i] on. *)
Fixpoint weigh (mul : Q -> Q -> Q) (i : nat) (pairs : list (Q * Chunk))
    : list (Q * nat) :=
  match pairs with
  | [] => []
  | (score, section) :: pairs' =>
      (mul score (weight_of section), i) :: weigh mul (S i) pairs'
  end.

(** [list.sort] is stable and compares keys with [<] only; insertion
    from the right end is such a sort. *)
Fixpoint insert_by {A : Type} (lt : A -> A -> bool) (x : A) (l : list A)
    : list A :=
  match l with
  | [] => [x]
  | y :: l' => if lt y x then y :: insert_by lt x l' else x :: l
  end.

Fixpoint sort_asc {A : Type} (lt : A -> A -> bool) (l : list A) : list A :=
  match l with
  | [] => []
  | x :: l' => insert_by lt x (sort_asc lt l')
  end.

(** [l.sort(reverse=True, key=...)]: the list is reversed, sorted and
    reversed again, which keeps equal keys in their original order. *)
Definition sort_reverse {A : Type} (lt : A -> A -> bool) (l : list A)
    : list A :=
  rev (sort_asc lt (rev l)).

Definition Qltb (x y : Q) : bool := negb (Qle_bool y x).

Definition key_lt (a b : Q * nat) : bool := Qltb (fst a) (fst b).

(** [l[:k]] for an int [k] of either sign *)
Definition slice_to {A : Type} (k : Z) (l : list A) : list A :=
  if k <? 0 then firstn (Z.to_nat (Z.of_nat (length l) + k)) l
  else firstn (Z.to_nat k) l.

(** [l[i]] for [i >= 0] *)
Definition index {A : Type} (l : list A) (i : nat) : exc A :=
  match nth_error l i with
  | Some a => Ok a
  | None => Raise IndexError
  end.

(** The loop that fills [ranked], from rank [rank] on. *)
Fixpoint rank_loop (secs : list Chunk) (similarities : list Q)
    (rank : Z) (selected : list (Q * nat)) : exc (list RankedSection) :=
  match selected with
  | [] => Ok []
  | (_, idx) :: selected' =>
      section <- index secs idx ;;
      sim <- index similarities idx ;;
      rest <- rank_loop secs similarities (rank + 1) selected' ;;
      Ok (mkRanked section (rank + 1) sim :: rest)
  end.

Definition similarities_of (m : EmbeddingModel) (secs : list Chunk)
    (query : string) : list Q :=
  scores m query (map chunk_text secs).

Definition weighted_scores_of (m : EmbeddingModel) (secs : list Chunk)
    (query : string) : list (Q * nat) :=
  weigh (times m) 0 (combine (similarities_of m secs query) secs).

Definition rank_sections (model : option EmbeddingModel) (top_k : Z)
    (secs : list Chunk) (query : string) : exc (list RankedSection) :=
  if negb (nonempty secs) then Ok []
  else match model with
       | None => Ok []
       | Some m =>
           let similarities := similarities_of m secs query in
           let weighted_scores := weighted_scores_of m secs query in
           let weighted_scores := sort_reverse key_lt weighted_scores in
           rank_loop secs similarities 0 (slice_to top_k weighted_scores)
       end.

(** *** Paths ([os.path] on POSIX) *)

Definition is_sep (c : ascii) : bool := Ascii.eqb "/" c.

(** [os.path.basename(path)]: what follows the last [/]. *)
Definition basename (path : string) : string :=
  last (split_by is_sep path) "".

Fixpoint ends_with_sep (s : string) : bool :=
  match s with
  | EmptyString => false
  | String c EmptyString => is_sep c
  | String _ s' => ends_with_sep s'
  end.

(** [os.path.join(a, b)] *)
Definition path_join (a b : string) : string :=
  if starts_with "/" b then b
  else if is_empty a || ends_with_sep a then a ++ b
  else a ++ "/" ++ b.

(** *** Chunk extraction *)

(** What [page.extract_text()] does: it raises, or it returns [None] or
    a text. *)
Inductive PageRead : Type :=
| ExtractFails
| Extracted (text : option string).

(** What [pdfplumber.open(path)] does: it raises, or it gives the
    pages. *)
Inductive PdfFile : Type :=
| OpenFails
| Opened (pages : list PageRead).

(** The loop over the sections of a page, appending to [chunks]; the
    flag tells that an exception left the loop. *)
Fixpoint sections_loop (doc : string) (page_num : Z)
    (secs : list PageSection) (chunks : list Chunk) : list Chunk * bool :=
  match secs with
  | [] => (chunks, false)
  | s :: secs' =>
      match _is_meaningful_section (text s) with
      | Raise _ => (chunks, true)
      | Ok keep =>
          sections_loop doc page_num secs'
            (if keep
             then chunks
                  ++ [mkChunk doc (text s) (title s) page_num
                        (Some (_classify_content_type (text s)))]
             else chunks)
      end
  end.

(** The loop over the pages, from page [page_num] on.  An exception
    ends it: [except Exception] logs and [chunks] is returned as it
    is. *)
Fixpoint pages_loop (doc : string) (page_num : Z) (pages : list PageRead)
    (chunks : list Chunk) : list Chunk :=
  match pages with
  | [] => chunks
  | ExtractFails :: _ => chunks
  | Extracted None :: pages' => pages_loop doc (page_num + 1) pages' chunks
  | Extracted (Some txt) :: pages' =>
      if is_empty txt then pages_loop doc (page_num + 1) pages' chunks
      else
        let (chunks', raised) :=
          sections_loop doc page_num (_extract_sections_from_page txt)
            chunks in
        if raised then chunks'
        else pages_loop doc (page_num + 1) pages' chunks'
  end.

Definition extract_text_chunks (pdfplumber_open : string -> PdfFile)
    (pdf_path : string) : list Chunk :=
  match pdfplumber_open pdf_path with
  | OpenFails => []
  | Opened pages => pages_loop (basename pdf_path) 1 pages []
  end.

(** *** Orchestrator (4.6) *)

(** [s[:500] + "..." if len(s) > 500 else s] *)
Definition refine_text (txt : string) : string :=
  if len txt >? 500 then take 500 txt ++ "..." else txt.

(** An entry of [documents]: a filename, or a dict that may hold one. *)
Inductive DocRef : Type :=
| DocName (name : string)
| DocDict (filename : option string).

Record InputData : Type := mkInput {
  documents : option (list DocRef);
  persona : option Persona;
  job_to_be_done : option Job;
  pdf_directory : option string
}.

Record Metadata : Type := mkMetadata {
  input_documents : list string;
  metadata_persona : string;
  metadata_job_to_be_done : string;
  processing_timestamp : string
}.

Record ExtractedSection : Type := mkExtracted {
  extracted_document : string;
  extracted_section_title : string;
  extracted_importance_rank : Z;
  extracted_page_number : Z
}.

Record SubsectionAnalysis : Type := mkAnalysis {
  analysis_document : string;
  refined_text : string;
  analysis_page_number : Z
}.

Record Output : Type := mkOutput {
  metadata : Metadata;
  extracted_sections : list ExtractedSection;
  subsection_analysis : list SubsectionAnalysis
}.

(** The object: [self.model_name], [self.top_k], [self.model]. *)
Record System : Type := mkSystem {
  model_name : string;
  top_k : Z;
  model : option EmbeddingModel
}.

(** What the run takes from outside: the file system, the PDF reader,
    the model loader ([None] when it raises), [str] on the two dicts
    and the clock. *)
Record World : Type := mkWorld {
  path_exists : string -> bool;
  pdfplumber_open : string -> PdfFile;
  sentence_transformer : string -> option EmbeddingModel;
  str_of_persona : Persona -> string;
  str_of_job : Job -> string;
  now_isoformat : string
}.

Inductive RunError : Type :=
| TypeError
| LoadError
| Escaped (e : PyExc).

Inductive run (A : Type) : Type :=
| Done (a : A)
| Crash (e : RunError).

Arguments Done {A} a.
Arguments Crash {A} e.

(** [self.load_model()] behind [if not self.model]. *)
Definition ensure_model (w : World) (sys : System) : run System :=
  match model sys with
  | Some _ => Done sys
  | None =>
      match sentence_transformer w (model_name sys) with
      | Some m => Done (mkSystem (model_name sys) (top_k sys) (Some m))
      | None => Crash LoadError
      end
  end.

(** [doc.get('filename', doc) if isinstance(doc, dict) else doc]; a dict
    without the key stands for itself, and [os.path.join] refuses it. *)
Definition filename_of (doc : DocRef) : run string :=
  match doc with
  | DocName name => Done name
  | DocDict (Some name) => Done name
  | DocDict None => Crash TypeError
  end.

(** The loop over [documents]. *)
Fixpoint documents_loop (w : World) (pdf_dir : string) (docs : list DocRef)
    (all_sections : list Chunk) (processed_docs : list string)
    : run (list Chunk * list string) :=
  match docs with
  | [] => Done (all_sections, processed_docs)
  | doc :: docs' =>
      match filename_of doc with
      | Crash e => Crash e
      | Done filename =>
          let pdf_path := path_join pdf_dir filename in
          if path_exists w pdf_path then
            let sections := extract_text_chunks (pdfplumber_open w) pdf_path in
            documents_loop w pdf_dir docs'
              (all_sections ++ sections) (processed_docs ++ [filename])
          else documents_loop w pdf_dir docs' all_sections processed_docs
      end
  end.

Definition empty_persona : Persona := mkPersona None None None.
Definition empty_job : Job := mkJob None None.

Definition process_documents (w : World) (sys : System)
    (input_data : InputData) : run (Output * System) :=
  let start_time := now_isoformat w in
  let documents := get (documents input_data) [] in
  let persona := get (persona input_data) empty_persona in
  let job := get (job_to_be_done input_data) empty_job in
  let pdf_dir := get (pdf_directory input_data) "pdfs" in
  match ensure_model w sys with
  | Crash e => Crash e
  | Done sys =>
      let query := create_persona_query persona job in
      match documents_loop w pdf_dir documents [] [] with
      | Crash e => Crash e
      | Done (all_sections, processed_docs) =>
          match rank_sections (model sys) (top_k sys) all_sections query with
          | Raise e => Crash (Escaped e)
          | Ok top_sections =>
              Done
                (mkOutput
                   (mkMetadata processed_docs
                      (get (role persona) (str_of_persona w persona))
                      (get (task job) (str_of_job w job))
                      start_time)
                   (map (fun s =>
                           mkExtracted (document (ranked s))
                             (section_title (ranked s))
                             (importance_rank s) (page (ranked s)))
                      top_sections)
                   (map (fun s =>
                           mkAnalysis (document (ranked s))
                             (refine_text (chunk_text (ranked s)))
                             (page (ranked s)))
                      top_sections),
                 sys)
          end
      end
  end.

(** * Vocabulary of the statements *)

(** ** Texts *)

(** A text is blank when it holds whitespace only. *)
Definition blank (s : string) : bool := forallb_str is_space s.

Definition all_of (p : ascii -> bool) (s : string) : Prop :=
  forallb_str p s = true.

Definition no_newline (s : string) : Prop := count newline s = 0.

Definition word_count (txt : string) : Z :=
  Z.of_nat (length (split_ws txt)).

Definition ratio (a b : Z) : Q := (inject_Z a / inject_Z b)%Q.

(** ** The five header shapes, in the words of 4.1a *)

(** An upper-case letter, then letters, spaces, [&] and [-] only. *)
Definition shape_title_words (line : string) : Prop :=
  exists c rest,
    line = String c rest /\ is_AZ c = true
    /\ rest <> "" /\ all_of title_char rest.

(** A list marker at the start: numerals, a period, optional spaces and
    an upper-case letter. *)
Definition shape_marker (numeral : ascii -> bool) (line : string) : Prop :=
  exists ds ws c tail,
    line = ds ++ "." ++ ws ++ String c tail
    /\ ds <> "" /\ all_of numeral ds
    /\ all_of is_space ws /\ is_AZ c = true.

(** Upper-case letters and spaces only. *)
Definition shape_all_caps (line : string) : Prop :=
  line <> "" /\ all_of caps_char line.

(** Two capitalized words at the start. *)
Definition shape_two_capitalized (line : string) : Prop :=
  exists a w1 ws b w2 tail,
    line = String a w1 ++ ws ++ String b w2 ++ tail
    /\ is_AZ a = true /\ w1 <> "" /\ all_of is_az w1
    /\ ws <> "" /\ all_of is_space ws
    /\ is_AZ b = true /\ w2 <> "" /\ all_of is_az w2.

(** ** Segmentation *)

(** A body line: not empty once trimmed, and not a header. *)
Definition is_body (raw : string) : bool :=
  negb (is_empty (strip raw)) && negb (_is_section_header (strip raw)).

(** What the accumulator holds after a run of lines without header:
    every non-empty trimmed line, each followed by one space. *)
Fixpoint body_of (lines : list string) : string :=
  match lines with
  | [] => ""
  | raw :: rest =>
      if is_empty (strip raw) then body_of rest
      else strip raw ++ " " ++ body_of rest
  end.

(** The loop invariant: no newline in a finished section, nor in the
    accumulator. *)
Definition clean (st : SegState) : Prop :=
  Forall (fun s => no_newline (text s)) (sections st)
  /\ no_newline (text (current st)).

(** The second invariant: once a body line has been read, a section is
    finished or the accumulator holds text. *)
Definition live (st : SegState) : Prop :=
  sections st <> [] \/ blank (text (current st)) = false.

(** ** Query *)

(** The query as the specification words it: the task, then each of the
    three optional parts when its list is non-empty, then the role. *)
Definition optional_part (prefix : string) (items : list string)
    : list string :=
  match items with
  | [] => []
  | _ :: _ => [prefix ++ join ", " items]
  end.

Definition query_parts_spec (persona : Persona) (job : Job) : list string :=
  ([get (task job) ""]
   ++ optional_part "Expertise in: " (get (expertise_areas persona) [])
   ++ optional_part "Focus on: " (get (focus_areas persona) [])
   ++ optional_part "Requirements: " (get (requirements job) [])
   ++ [("Role: " ++ get (role persona) "")%string])%list.

(** ** Ranking *)

(** Ascending by key, equal keys in the order [before] of the input. *)
Definition asc_stable {A : Type} (lt : A -> A -> bool)
    (before : A -> A -> Prop) (a b : A) : Prop :=
  lt a b = true \/ (lt b a = false /\ before a b).

(** Descending by weighted score, equal scores by pooled index. *)
Definition desc_stable (a b : Q * nat) : Prop :=
  key_lt a b = false /\ (key_lt b a = true \/ (snd a < snd b)%nat).

(** An entry of [weighted_scores] holds the index of a section, and its
    similarity times its weight. *)
Definition entry_ok (mul : Q -> Q -> Q) (secs : list Chunk)
    (sims : list Q) (e : Q * nat) : Prop :=
  exists s c,
    nth_error sims (snd e) = Some s
    /\ nth_error secs (snd e) = Some c
    /\ fst e = mul s (weight_of c).

(** The entries that the ranking loop reads. *)
Definition selected_of (m : EmbeddingModel) (top_k : Z) (secs : list Chunk)
    (query : string) : list (Q * nat) :=
  slice_to top_k (sort_reverse key_lt (weighted_scores_of m secs query)).

(** The weighted score of each pooled section, in pooled order. *)
Definition pooled_weighted (m : EmbeddingModel) (secs : list Chunk)
    (query : string) : list Q :=
  map fst (weighted_scores_of m secs query).

(** The score that orders a ranked section. *)
Definition weighted (mul : Q -> Q -> Q) (r : RankedSection) : Q :=
  mul (relevance_score r) (weight_of (ranked r)).

(** [picked mul secs sims e r]: the output item [r] is the section at
    the index of entry [e], with its raw similarity. *)
Definition picked (mul : Q -> Q -> Q) (secs : list Chunk) (sims : list Q)
    (e : Q * nat) (r : RankedSection) : Prop :=
  nth_error secs (snd e) = Some (ranked r)
  /\ nth_error sims (snd e) = Some (relevance_score r)
  /\ fst e = weighted mul r.

(** The labels of the weight table. *)
Definition labels : list string :=
  [ "abstract"; "introduction"; "methodology"; "results"; "conclusion";
    "references"; "content" ].

(** ** Test data *)

Definition plain_page : string :=
  "the quick brown fox jumps over the lazy dog".

Definition two_line_page : string :=
  "alpha beta" ++ String newline "gamma delta".

Definition nine_words : string :=
  "one two three four five six seven eight nine".

Definition ten_words : string :=
  "one two three four five six seven eight nine ten".

(** 30 characters, 9 of them digits. *)
Definition digits_30_percent : string :=
  "1a 1a 1a 1a 1a 1a 1a 1a 1a abc".

(** 100 characters, 31 of them digits. *)
Definition digits_31_percent : string :=
  "111aaaaaa 111aaaaaa 111aaaaaa 111aaaaaa 111aaaaaa 111aaaaaa 111aaaaaa 111aaaaaa 111aaaaaa 1111aaaaaa".

(** A model that scores the text ["refs text"] 0.9 and any other text
    0.7, whatever the query, and multiplies exactly. *)
Definition example_model : EmbeddingModel :=
  mkModel
    (fun _ ts =>
       map (fun t => if String.eqb t "refs text" then 9 # 10 else 7 # 10) ts)
    Qmult
    (fun _ ts => length_map _ ts).

Definition references_section : Chunk :=
  mkChunk "a.pdf" "refs text" "References" 1 (Some "references").

Definition methodology_section : Chunk :=
  mkChunk "a.pdf" "meth text" "Methods" 2 (Some "methodology").

Definition tied_sections : list Chunk :=
  [ mkChunk "a.pdf" "first" "A" 1 (Some "content");
    mkChunk "b.pdf" "second" "B" 1 (Some "content");
    methodology_section ].

(** ** Further vocabulary *)

(** A section as the segmenter leaves it: a title, and a text that is
    neither empty nor padded. *)
Definition well_formed (s : PageSection) : Prop :=
  title s <> "" /\ text s <> "" /\ strip (text s) = text s.

(** The lines of a page that open a section. *)
Definition header_lines (lines : list string) : list string :=
  filter (fun raw => _is_section_header (strip raw)) lines.

(** The chunks of one page. *)
Definition page_kept (doc : string) (page_num : Z) (t : option string)
    : list Chunk :=
  match page_chunks doc page_num (get t "") with
  | Ok chunks => chunks
  | Raise _ => []
  end.

(** The chunks of consecutive pages, the first numbered [page_num]. *)
Fixpoint pages_kept (doc : string) (page_num : Z)
    (texts : list (option string)) : list Chunk :=
  match texts with
  | [] => []
  | t :: texts' =>
      (page_kept doc page_num t ++ pages_kept doc (page_num + 1) texts')%list
  end.

(** The texts of the pages before the first one that fails. *)
Fixpoint readable_prefix (pages : list PageRead) : list (option string) :=
  match pages with
  | Extracted t :: pages' => t :: readable_prefix pages'
  | _ => []
  end.

(** A chunk as the extraction leaves it, for document [doc] and a page
    in [lo..hi]. *)
Definition chunk_ok (doc : string) (lo hi : Z) (c : Chunk) : Prop :=
  document c = doc
  /\ lo <= page c <= hi
  /\ content_type c = Some (_classify_content_type (chunk_text c))
  /\ section_title c <> ""
  /\ strip (chunk_text c) = chunk_text c
  /\ _is_meaningful_section (chunk_text c) = Ok true.

Definition page_count (pdf : PdfFile) : Z :=
  match pdf with
  | OpenFails => 0
  | Opened pages => Z.of_nat (length pages)
  end.

(** [named docs names]: every entry of [docs] has a filename, and
    [names] lists them. *)
Definition named (docs : list DocRef) (names : list string) : Prop :=
  Forall2 (fun doc name => filename_of doc = Done name) docs names.

(** The filenames whose path exists under [pdf_dir]. *)
Definition found (w : World) (pdf_dir : string) (names : list string)
    : list string :=
  filter (fun name => path_exists w (path_join pdf_dir name)) names.

(** The chunks of the files found, pooled in the order of the input. *)
Definition pooled (w : World) (pdf_dir : string) (names : list string)
    : list Chunk :=
  flat_map
    (fun name =>
       extract_text_chunks (pdfplumber_open w) (path_join pdf_dir name))
    (found w pdf_dir names).

Definition loadable (w : World) (sys : System) : Prop :=
  model sys <> None \/ sentence_transformer w (model_name sys) <> None.

(** ** Further test data *)

Definition titled_page : string :=
  "Methods" ++ String newline "we measure the approach".

Definition led_page : string :=
  "opening words" ++ String newline titled_page.

(** A page of one header and eleven words of body. *)
Definition example_page : string :=
  "Methods"
  ++ String newline
       "we measure the approach on eleven words of plain body text".

Definition example_world : World :=
  mkWorld
    (fun path =>
       String.eqb path "pdfs/a.pdf" || String.eqb path "pdfs/broken.pdf")
    (fun path =>
       if String.eqb path "pdfs/a.pdf"
       then Opened [Extracted (Some example_page); ExtractFails]
       else OpenFails)
    (fun _ => Some example_model)
    (fun _ => "{}")
    (fun _ => "{}")
    "2025-01-01T00:00:00".

Definition example_system : System := mkSystem "all-MiniLM-L6-v2" 10 None.

Definition example_system_loaded : System :=
  mkSystem "all-MiniLM-L6-v2" 10 (Some example_model).

Definition example_input : InputData :=
  mkInput
    (Some [DocName "a.pdf"; DocDict (Some "missing.pdf");
           DocName "broken.pdf"])
    (Some (mkPersona (Some "Analyst") (Some ["finance"]) None))
    (Some (mkJob (Some "Summarize risk") None))
    None.

Definition example_output : Output :=
  mkOutput
    (mkMetadata ["a.pdf"; "broken.pdf"] "Analyst" "Summarize risk"
       "2025-01-01T00:00:00")
    [mkExtracted "a.pdf" "Methods" 1 1]
    [mkAnalysis "a.pdf"
       "we measure the approach on eleven words of plain body text" 1].

(** * Properties *)

(** ** Strings *)

Section StringFacts.

Variable p : ascii -> bool.

Lemma count_by_nonneg (s : string) : 0 <= count_by p s.
Proof.
  induction s as [|c s IH]; simpl; [lia|].
  destruct (p c); lia.
Qed.

Lemma count_by_app (s t : string) :
  count_by p (s ++ t) = count_by p s + count_by p t.
Proof.
  induction s as [|c s IH]; simpl; [reflexivity|].
  rewrite IH. lia.
Qed.

Lemma count_by_lstrip (s : string) : count_by p (lstrip s) <= count_by p s.
Proof.
  induction s as [|c s IH]; simpl; [lia|].
  destruct (is_space c); simpl; destruct (p c); lia.
Qed.

Lemma count_by_rstrip (s : string) : count_by p (rstrip s) <= count_by p s.
Proof.
  induction s as [|c s IH]; simpl; [lia|].
  pose proof (count_by_nonneg s).
  destruct (is_empty (rstrip s) && is_space c); simpl; destruct (p c); lia.
Qed.

Lemma count_by_strip (s : string) : count_by p (strip s) <= count_by p s.
Proof.
  unfold strip.
  pose proof (count_by_rstrip (lstrip s)).
  pose proof (count_by_lstrip s). lia.
Qed.

Lemma count_by_split_by (s piece : string) :
  In piece (split_by p s) -> count_by p piece = 0.
Proof.
  revert piece.
  induction s as [|c s IH]; simpl; intros piece Hin.
  - destruct Hin as [<-|[]]. reflexivity.
  - destruct (p c) eqn:Hc.
    + destruct Hin as [<-|Hin]; [reflexivity|auto].
    + destruct (split_by p s) as [|h t] eqn:Hs.
      * destruct Hin as [<-|[]]. simpl. now rewrite Hc.
      * destruct Hin as [<-|Hin].
        -- simpl. rewrite Hc. rewrite (IH h); [reflexivity|now left].
        -- apply IH. now right.
Qed.

End StringFacts.

Lemma append_nil_r (s : string) : s ++ "" = s.
Proof.
  induction s as [|c s IH]; simpl; [reflexivity|now rewrite IH].
Qed.

Lemma append_assoc (s t u : string) : (s ++ t) ++ u = s ++ t ++ u.
Proof.
  induction s as [|c s IH]; simpl; [reflexivity|now rewrite IH].
Qed.

Lemma blank_app (s t : string) : blank (s ++ t) = blank s && blank t.
Proof.
  unfold blank.
  induction s as [|c s IH]; simpl; [reflexivity|].
  now rewrite IH, andb_assoc.
Qed.

Lemma blank_lstrip (s : string) : blank (lstrip s) = blank s.
Proof.
  unfold blank.
  induction s as [|c s IH]; simpl; [reflexivity|].
  destruct (is_space c) eqn:Hc; simpl; [exact IH|].
  now rewrite Hc.
Qed.

Lemma is_empty_rstrip (s : string) : is_empty (rstrip s) = blank s.
Proof.
  unfold blank.
  induction s as [|c s IH]; simpl; [reflexivity|].
  rewrite IH.
  destruct (forallb_str is_space s), (is_space c); reflexivity.
Qed.

Lemma is_empty_strip (s : string) : is_empty (strip s) = blank s.
Proof.
  unfold strip. now rewrite is_empty_rstrip, blank_lstrip.
Qed.

Lemma blank_rstrip (s : string) : blank (rstrip s) = blank s.
Proof.
  induction s as [|c s IH]; [reflexivity|].
  simpl rstrip. rewrite is_empty_rstrip.
  unfold blank in *.
  destruct (forallb_str is_space s) eqn:Hb, (is_space c) eqn:Hc; simpl;
    rewrite ?Hc, ?IH; simpl; auto.
Qed.

Lemma blank_strip (s : string) : blank (strip s) = blank s.
Proof.
  unfold strip. now rewrite blank_rstrip, blank_lstrip.
Qed.

Lemma is_empty_true (s : string) : is_empty s = true <-> s = "".
Proof.
  destruct s; simpl; split; congruence.
Qed.

Lemma len_nonneg (s : string) : 0 <= len s.
Proof. unfold len. lia. Qed.

Lemma len_zero (s : string) : len s = 0 <-> s = "".
Proof.
  unfold len. destruct s; simpl; split; try congruence; lia.
Qed.

(** ** Regular expressions: the matcher against the meaning *)

Lemma append_eq_nil (s t : string) : s ++ t = "" -> s = "" /\ t = "".
Proof. destruct s; simpl; [auto|discriminate]. Qed.

Lemma nullable_matches (r : regex) (rest : string) :
  nullable rest r = true <-> matches r "" rest.
Proof.
  split.
  - induction r; simpl; intros H; try discriminate.
    + constructor.
    + apply andb_true_iff in H as [H1 H2].
      apply (@M_Cat r1 r2 "" "" rest); auto.
    + apply orb_true_iff in H as [H|H]; [apply M_AltL|apply M_AltR]; auto.
    + constructor.
    + now constructor.
  - intros H. remember "" as w eqn:Hw.
    induction H; simpl; try discriminate; auto.
    + apply append_eq_nil in Hw as [-> ->].
      simpl in *. rewrite IHmatches1, IHmatches2; auto.
    + rewrite IHmatches; auto.
    + rewrite IHmatches; auto. apply orb_true_r.
Qed.

Lemma star_cons_inv (r : regex) (c : ascii) (w rest : string) :
  matches (Star r) (String c w) rest ->
  exists w1 w2,
    w = w1 ++ w2
    /\ matches r (String c w1) (w2 ++ rest)
    /\ matches (Star r) w2 rest.
Proof.
  intros H. remember (Star r) as sr eqn:Hsr.
  remember (String c w) as cw eqn:Hcw.
  induction H; try discriminate.
  injection Hsr as ->.
  destruct w1 as [|c1 w1]; simpl in Hcw.
  - now apply IHmatches2.
  - injection Hcw as -> <-. exists w1, w2. auto.
Qed.

Lemma matches_Void_inv (w rest : string) : ~ matches Void w rest.
Proof. inversion 1. Qed.

Lemma matches_Eps_inv (w rest : string) : matches Eps w rest -> w = "".
Proof. now inversion 1. Qed.

Lemma matches_Eol_inv (w rest : string) :
  matches Eol w rest -> w = "" /\ at_eol rest = true.
Proof. now inversion 1. Qed.

Lemma matches_Cls_inv (p : ascii -> bool) (w rest : string) :
  matches (Cls p) w rest -> exists c, w = String c "" /\ p c = true.
Proof. inversion 1; subst. eauto. Qed.

Lemma matches_Cat_inv (r1 r2 : regex) (w rest : string) :
  matches (Cat r1 r2) w rest ->
  exists w1 w2,
    w = w1 ++ w2 /\ matches r1 w1 (w2 ++ rest) /\ matches r2 w2 rest.
Proof. inversion 1; subst. eauto. Qed.

Lemma matches_Alt_inv (r1 r2 : regex) (w rest : string) :
  matches (Alt r1 r2) w rest -> matches r1 w rest \/ matches r2 w rest.
Proof. inversion 1; subst; auto. Qed.

Lemma deriv_sound (r : regex) (c : ascii) :
  forall w rest,
    matches (deriv c (w ++ rest) r) w rest -> matches r (String c w) rest.
Proof.
  induction r as [| |p|r1 IH1 r2 IH2|r1 IH1 r2 IH2|r IH|]; simpl;
    intros w rest H.
  - now apply matches_Void_inv in H.
  - now apply matches_Void_inv in H.
  - destruct (p c) eqn:Hp; [|now apply matches_Void_inv in H].
    apply matches_Eps_inv in H as ->. now constructor.
  - assert (Hcat : forall w' rest',
               w = w' -> rest = rest' ->
               matches (Cat (deriv c (w ++ rest) r1) r2) w' rest' ->
               matches (Cat r1 r2) (String c w) rest).
    { intros w' rest' <- <- Hc.
      apply matches_Cat_inv in Hc as (w1 & w2 & -> & H1 & H2).
      rewrite append_assoc in H1. apply IH1 in H1.
      apply (@M_Cat r1 r2 (String c w1) w2 rest); assumption. }
    destruct (nullable (String c (w ++ rest)) r1) eqn:Hn.
    + apply matches_Alt_inv in H as [H|H].
      * now apply (Hcat w rest).
      * apply IH2 in H. apply nullable_matches in Hn.
        apply (@M_Cat r1 r2 "" (String c w) rest); assumption.
    + now apply (Hcat w rest).
  - apply matches_Alt_inv in H as [H|H];
      [apply M_AltL|apply M_AltR]; auto.
  - apply matches_Cat_inv in H as (w1 & w2 & -> & H1 & H2).
    rewrite append_assoc in H1. apply IH in H1.
    apply (@M_Star_cons r (String c w1) w2 rest); assumption.
  - now apply matches_Void_inv in H.
Qed.

Lemma deriv_complete (r : regex) (c : ascii) :
  forall w rest,
    matches r (String c w) rest -> matches (deriv c (w ++ rest) r) w rest.
Proof.
  induction r as [| |p|r1 IH1 r2 IH2|r1 IH1 r2 IH2|r IH|]; simpl;
    intros w rest H.
  - now apply matches_Void_inv in H.
  - apply matches_Eps_inv in H. discriminate.
  - apply matches_Cls_inv in H as (c' & [= <- ->] & Hp).
    rewrite Hp. constructor.
  - apply matches_Cat_inv in H as (w1 & w2 & Hw & H1 & H2).
    destruct w1 as [|c1 w1]; simpl in Hw.
    + subst w2. apply nullable_matches in H1. simpl in H1. rewrite H1.
      apply M_AltR. now apply IH2.
    + injection Hw as <- ->.
      apply IH1 in H1. rewrite <- append_assoc in H1.
      destruct (nullable (String c ((w1 ++ w2) ++ rest)) r1);
        [apply M_AltL|]; now constructor.
  - apply matches_Alt_inv in H as [H|H];
      [apply M_AltL|apply M_AltR]; auto.
  - apply star_cons_inv in H as (w1 & w2 & -> & H1 & H2).
    apply IH in H1. rewrite <- append_assoc in H1.
    now constructor.
  - apply matches_Eol_inv in H as [H _]. discriminate.
Qed.

(** [re.match] finds a match exactly when a prefix of the text matches. *)
Lemma re_match_spec (r : regex) (s : string) :
  re_match r s = true
  <-> exists w rest, s = w ++ rest /\ matches r w rest.
Proof.
  revert r. induction s as [|c s IH]; intros r; simpl.
  - rewrite orb_false_r, nullable_matches. split.
    + intros H. now exists "", "".
    + intros (w & rest & Hs & H). symmetry in Hs.
      apply append_eq_nil in Hs as [-> ->]. exact H.
  - rewrite orb_true_iff, nullable_matches, IH. split.
    + intros [H|(w & rest & -> & H)].
      * now exists "", (String c s).
      * exists (String c w), rest. split; [reflexivity|].
        now apply deriv_sound.
    + intros (w & rest & Hs & H). destruct w as [|c' w]; simpl in Hs.
      * left. now subst rest.
      * injection Hs as <- ->. right. exists w, rest.
        split; [reflexivity|]. now apply deriv_complete.
Qed.

Lemma forallb_str_app (p : ascii -> bool) (s t : string) :
  forallb_str p (s ++ t) = forallb_str p s && forallb_str p t.
Proof.
  induction s as [|c s IH]; simpl; [reflexivity|].
  now rewrite IH, andb_assoc.
Qed.

Lemma matches_star_cls (p : ascii -> bool) (w rest : string) :
  matches (Star (Cls p)) w rest <-> forallb_str p w = true.
Proof.
  split.
  - intros H. remember (Star (Cls p)) as r eqn:Hr.
    induction H; try discriminate; [reflexivity|].
    injection Hr as ->.
    apply matches_Cls_inv in H as (c & -> & Hc).
    simpl. rewrite Hc. now apply IHmatches2.
  - revert rest. induction w as [|c w IH]; simpl; intros rest H.
    + constructor.
    + apply andb_true_iff in H as [Hc Hw].
      apply (@M_Star_cons (Cls p) (String c "") w rest).
      * now constructor.
      * now apply IH.
Qed.

Lemma matches_plus_cls (p : ascii -> bool) (w rest : string) :
  matches (Plus (Cls p)) w rest <-> w <> "" /\ forallb_str p w = true.
Proof.
  unfold Plus. split.
  - intros H. apply matches_Cat_inv in H as (w1 & w2 & -> & H1 & H2).
    apply matches_Cls_inv in H1 as (c & -> & Hc).
    apply matches_star_cls in H2. simpl. rewrite Hc, H2.
    split; [discriminate|reflexivity].
  - intros [Hne H]. destruct w as [|c w]; [contradiction|].
    simpl in H. apply andb_true_iff in H as [Hc Hw].
    apply (@M_Cat (Cls p) (Star (Cls p)) (String c "") w rest).
    + now constructor.
    + now apply matches_star_cls.
Qed.

Lemma at_eol_cases (rest : string) :
  at_eol rest = true <-> rest = "" \/ rest = String newline "".
Proof.
  destruct rest as [|c [|d rest]]; simpl.
  - tauto.
  - rewrite Ascii.eqb_eq. split; [intros ->; now right|].
    intros [H|H]; [discriminate|now injection H].
  - split; [discriminate|]. intros [H|H]; discriminate.
Qed.

(** A class that holds the newline absorbs the newline that [$] may
    leave unread. *)
Lemma plus_eol (p : ascii -> bool) (s : string) :
  p newline = true ->
  (exists w rest, s = w ++ rest /\ matches (Cat (Plus (Cls p)) Eol) w rest)
  <-> s <> "" /\ all_of p s.
Proof.
  intros Hnl. split.
  - intros (w & rest & -> & H).
    apply matches_Cat_inv in H as (w1 & w2 & -> & H1 & H2).
    apply matches_Eol_inv in H2 as [-> Hrest].
    apply matches_plus_cls in H1 as [Hne Hall].
    rewrite append_nil_r. split.
    + destruct w1; [contradiction|discriminate].
    + unfold all_of. rewrite forallb_str_app, Hall.
      apply at_eol_cases in Hrest as [->| ->]; simpl; [reflexivity|].
      now rewrite Hnl.
  - intros [Hne Hall]. exists s, "". split; [now rewrite append_nil_r|].
    rewrite <- (append_nil_r s) at 1.
    apply (@M_Cat (Plus (Cls p)) Eol s "" "").
    + now apply matches_plus_cls.
    + now constructor.
Qed.

Lemma re_match_all_caps (line : string) :
  re_match pattern_all_caps line = true <-> shape_all_caps line.
Proof.
  rewrite re_match_spec. unfold pattern_all_caps. now apply plus_eol.
Qed.

Lemma re_match_title_words (line : string) :
  re_match pattern_title_words line = true <-> shape_title_words line.
Proof.
  rewrite re_match_spec. unfold pattern_title_words, shape_title_words. split.
  - intros (w & rest & -> & H).
    apply matches_Cat_inv in H as (w1 & w2 & -> & H1 & H2).
    apply matches_Cls_inv in H1 as (c & -> & Hc).
    exists c, (w2 ++ rest). split; [reflexivity|]. split; [exact Hc|].
    apply (plus_eol title_char); [reflexivity|]. eauto.
  - intros (c & tail & -> & Hc & Htail).
    apply (plus_eol title_char) in Htail as (w & rest & -> & H);
      [|reflexivity].
    exists (String c "" ++ w), rest. split; [reflexivity|].
    apply (@M_Cat (Cls is_AZ) _ (String c "") w rest); [|exact H].
    now constructor.
Qed.

Lemma re_match_marker (numeral : ascii -> bool) (line : string) :
  re_match (marker numeral) line = true <-> shape_marker numeral line.
Proof.
  rewrite re_match_spec. unfold marker, shape_marker, chr. split.
  - intros (w & rest & -> & H).
    apply matches_Cat_inv in H as (ds & w2 & -> & Hds & H).
    apply matches_Cat_inv in H as (dot & w3 & -> & Hdot & H).
    apply matches_Cat_inv in H as (ws & w4 & -> & Hws & H).
    apply matches_Cls_inv in H as (c & -> & Hc).
    apply matches_Cls_inv in Hdot as (d & -> & Hd).
    apply Ascii.eqb_eq in Hd as <-.
    apply matches_plus_cls in Hds as [Hne Hds].
    apply matches_star_cls in Hws.
    exists ds, ws, c, rest.
    rewrite ?append_assoc. simpl. rewrite ?append_assoc. auto.
  - intros (ds & ws & c & tail & -> & Hne & Hds & Hws & Hc).
    exists (ds ++ "." ++ ws ++ String c ""), tail. split.
    + rewrite ?append_assoc. simpl. now rewrite ?append_assoc.
    + apply M_Cat; [now apply matches_plus_cls|].
      apply (@M_Cat _ _ "." (ws ++ String c "") tail);
        [constructor; apply Ascii.eqb_refl|].
      apply M_Cat; [now apply matches_star_cls|now constructor].
Qed.

Lemma re_match_two_capitalized (line : string) :
  re_match pattern_two_capitalized line = true <-> shape_two_capitalized line.
Proof.
  rewrite re_match_spec. unfold pattern_two_capitalized, shape_two_capitalized. split.
  - intros (w & rest & -> & H).
    apply matches_Cat_inv in H as (a' & x1 & -> & Ha & H).
    apply matches_Cat_inv in H as (w1 & x2 & -> & Hw1 & H).
    apply matches_Cat_inv in H as (ws & x3 & -> & Hws & H).
    apply matches_Cat_inv in H as (b' & w2 & -> & Hb & Hw2).
    apply matches_Cls_inv in Ha as (a & -> & Ha).
    apply matches_Cls_inv in Hb as (b & -> & Hb).
    apply matches_plus_cls in Hw1 as [Hn1 Hw1].
    apply matches_plus_cls in Hws as [Hns Hws].
    apply matches_plus_cls in Hw2 as [Hn2 Hw2].
    exists a, w1, ws, b, w2, rest.
    simpl. rewrite ?append_assoc. simpl. rewrite ?append_assoc.
    repeat split; assumption.
  - intros (a & w1 & ws & b & w2 & tail & -> & Ha & Hn1 & Hw1 & Hns & Hws
            & Hb & Hn2 & Hw2).
    exists (String a "" ++ w1 ++ ws ++ String b "" ++ w2), tail. split.
    + simpl. rewrite ?append_assoc. simpl. now rewrite ?append_assoc.
    + apply M_Cat; [now constructor|].
      apply M_Cat; [now apply matches_plus_cls|].
      apply M_Cat; [now apply matches_plus_cls|].
      apply M_Cat; [now constructor|now apply matches_plus_cls].
Qed.

(** ** Header detection *)

Lemma header_loop_flat (ps : list regex) (line : string) :
  header_loop ps line
  = existsb (fun p => re_match p line) ps
    && negb (isupper line && (len line >? 50))
    && negb (count "." line >? 3).
Proof.
  induction ps as [|p ps IH]; simpl; [reflexivity|].
  rewrite IH.
  destruct (re_match p line); simpl; [|reflexivity].
  destruct (isupper line && (len line >? 50)); simpl.
  - now rewrite andb_false_r.
  - destruct (count "." line >? 3); simpl; [|reflexivity].
    now rewrite andb_false_r.
Qed.

(** C7. A line is a section header exactly when its length is in
    [3..150], it has one of the five shapes (a capitalized title of
    letters, spaces, [&] and [-]; a decimal list marker; a roman list
    marker; upper-case letters and spaces only; two capitalized words),
    it is not an upper-case line of more than 50 characters, and it
    does not hold more than 3 periods. *)
Theorem is_section_header_iff (line : string) :
  _is_section_header line = true
  <-> (3 <= len line <= 150)
      /\ (shape_title_words line
          \/ shape_marker is_digit line
          \/ shape_marker roman_char line
          \/ shape_all_caps line
          \/ shape_two_capitalized line)
      /\ ~ (isupper line = true /\ len line > 50)
      /\ ~ (count "." line > 3).
Proof.
  rewrite <- re_match_title_words, <- re_match_all_caps,
    <- re_match_two_capitalized, <- !re_match_marker.
  fold pattern_decimal_marker pattern_roman_marker.
  unfold _is_section_header.
  rewrite header_loop_flat. unfold patterns. simpl existsb.
  rewrite orb_false_r.
  destruct (Z.ltb_spec (len line) 3) as [Hlo|Hlo]; simpl.
  { split; [discriminate|]. intros [[H _] _]. lia. }
  rewrite Z.gtb_ltb.
  destruct (Z.ltb_spec 150 (len line)) as [Hhi|Hhi]; simpl.
  { split; [discriminate|]. intros [[_ H] _]. lia. }
  rewrite !andb_true_iff, !orb_true_iff, !negb_true_iff.
  rewrite andb_false_iff, !Z.gtb_ltb, !Z.ltb_ge.
  split.
  - intros [[Hm Hup] Hdots].
    split; [lia|]. split; [tauto|]. split.
    + intros [Hu Hl]. destruct Hup as [Hup|Hup]; [congruence|].
      apply Z.ltb_ge in Hup. lia.
    + lia.
  - intros (_ & Hm & Hup & Hdots).
    split; [split; [tauto|]|lia].
    destruct (isupper line); [|now left].
    right. apply Z.ltb_ge. destruct (Z.le_gt_cases (len line) 50); [lia|].
    exfalso. apply Hup. split; [reflexivity|lia].
Qed.

(** ** Section filter *)

Lemma Qgtb_true (x y : Q) : Qgtb x y = true <-> (y < x)%Q.
Proof.
  unfold Qgtb. rewrite negb_true_iff.
  split; intro H.
  - apply Qnot_le_lt. intro Hle. apply Qle_bool_iff in Hle. congruence.
  - destruct (Qle_bool x y) eqn:E; [|reflexivity].
    apply Qle_bool_iff in E. exfalso. exact (Qlt_not_le _ _ H E).
Qed.

(** The filter never raises: each division is reached with a non-zero
    length only. *)
Lemma is_meaningful_section_value (txt : string) :
  _is_meaningful_section txt
  = Ok (negb ((word_count txt <? 10)
              || (len txt >? 0)
                 && Qgtb (ratio (count newline txt) (len txt)) (1 # 10)
              || (len txt >? 0)
                 && Qgtb (ratio (count_by is_digit txt) (len txt))
                      (3 # 10))).
Proof.
  unfold _is_meaningful_section, truediv, any, word_count, ratio.
  rewrite Z.gtb_ltb.
  destruct (Z.ltb_spec 0 (len txt)) as [Hpos|Hzero]; simpl.
  - destruct (Z.eqb_spec (len txt) 0) as [E|_]; [lia|].
    simpl. now rewrite orb_false_r, orb_assoc.
  - now rewrite !orb_false_r.
Qed.

(** C5. The filter drops a text exactly when it has fewer than 10
    words, or it is non-empty and more than a tenth of its characters
    are newlines, or it is non-empty and more than three tenths of its
    characters are digits.  The thresholds are strict: every 9-word
    text is dropped, every 10-word text without newline and digit is
    kept, a text with digit ratio 0.3 is kept and one with digit ratio
    0.31 is dropped. *)
Theorem is_meaningful_section_drop_iff :
  (forall txt,
      _is_meaningful_section txt = Ok false
      <-> (word_count txt < 10
           \/ (txt <> "" /\ (1 # 10 < ratio (count newline txt) (len txt))%Q)
           \/ (txt <> ""
               /\ (3 # 10 < ratio (count_by is_digit txt) (len txt))%Q)))
  /\ (forall txt, word_count txt = 9 -> _is_meaningful_section txt = Ok false)
  /\ (forall txt,
         word_count txt = 10 -> count newline txt = 0 ->
         count_by is_digit txt = 0 ->
         _is_meaningful_section txt = Ok true)
  /\ (word_count nine_words = 9
      /\ _is_meaningful_section nine_words = Ok false)
  /\ (word_count ten_words = 10
      /\ _is_meaningful_section ten_words = Ok true)
  /\ ((ratio (count_by is_digit digits_30_percent) (len digits_30_percent)
       == 3 # 10)%Q
      /\ _is_meaningful_section digits_30_percent = Ok true)
  /\ ((ratio (count_by is_digit digits_31_percent) (len digits_31_percent)
       == 31 # 100)%Q
      /\ 10 <= word_count digits_31_percent
      /\ count newline digits_31_percent = 0
      /\ _is_meaningful_section digits_31_percent = Ok false).
Proof.
  assert (Hiff : forall txt,
      _is_meaningful_section txt = Ok false
      <-> (word_count txt < 10
           \/ (txt <> "" /\ (1 # 10 < ratio (count newline txt) (len txt))%Q)
           \/ (txt <> ""
               /\ (3 # 10 < ratio (count_by is_digit txt) (len txt))%Q))).
  { intro txt. rewrite is_meaningful_section_value.
    assert (Hpos : (len txt >? 0) = true <-> txt <> "").
    { rewrite Z.gtb_ltb, Z.ltb_lt. pose proof (len_nonneg txt).
      pose proof (len_zero txt). split; intro H'.
      - intro E. apply H0 in E. lia.
      - destruct (Z.eq_dec (len txt) 0) as [E|E]; [|lia].
        apply H0 in E. contradiction. }
    split.
    - intro H. injection H as H. apply negb_false_iff in H.
      rewrite !orb_true_iff, !andb_true_iff, !Qgtb_true, Z.ltb_lt in H.
      tauto.
    - intro H. f_equal. apply negb_false_iff.
      rewrite !orb_true_iff, !andb_true_iff, !Qgtb_true, Z.ltb_lt.
      tauto. }
  split; [exact Hiff|].
  split.
  { intros txt Hw. apply Hiff. left. lia. }
  split.
  { intros txt Hw Hn Hd. rewrite is_meaningful_section_value.
    rewrite Hw, Hn, Hd. f_equal.
    apply negb_true_iff. rewrite !orb_false_iff, !andb_false_iff.
    assert (Hz : forall b, Qgtb (ratio 0 b) (1 # 10) = false
                           /\ Qgtb (ratio 0 b) (3 # 10) = false).
    { intro b. unfold ratio, Qgtb.
      assert (E : (inject_Z 0 / inject_Z b == 0)%Q).
      { unfold Qdiv. apply Qmult_0_l. }
      split; apply negb_false_iff, Qle_bool_iff; rewrite E; discriminate. }
    destruct (Hz (len txt)). auto. }
  repeat split; vm_compute; congruence.
Qed.

(** The parts of the theorem with a premise, at [nine_words] and
    [ten_words]. *)
Lemma is_meaningful_section_drop_iff_witness :
  _is_meaningful_section nine_words = Ok false
  /\ _is_meaningful_section ten_words = Ok true.
Proof.
  destruct is_meaningful_section_drop_iff as (_ & H9 & H10 & _).
  split.
  - apply (H9 nine_words). reflexivity.
  - apply (H10 ten_words); reflexivity.
Defined.

(** ** Totality of the text heuristics *)

Lemma kept_text_nonempty (txt : string) :
  _is_meaningful_section txt = Ok true -> txt <> "".
Proof.
  rewrite is_meaningful_section_value.
  intros H E. subst txt. vm_compute in H. discriminate.
Qed.

Lemma keep_sections_total (doc : string) (page_num : Z)
    (secs : list PageSection) :
  exists chunks,
    keep_sections doc page_num secs = Ok chunks
    /\ Forall (fun c => chunk_text c <> "") chunks.
Proof.
  induction secs as [|s secs [rest [Hrest Hne]]]; simpl.
  - exists []. split; [reflexivity|constructor].
  - rewrite Hrest.
    destruct (_is_meaningful_section (text s)) as [keep|e] eqn:Hkeep.
    + simpl. destruct keep.
      * eexists. split; [reflexivity|].
        constructor; [|exact Hne]. simpl.
        now apply kept_text_nonempty.
      * exists rest. split; [reflexivity|exact Hne].
    + rewrite is_meaningful_section_value in Hkeep. discriminate.
Qed.

(** C10. The text heuristics never raise.  Header detection,
    segmentation, title extraction and classification hold no statement
    that can raise and are total functions of the text; the filter
    divides by the length of the text, and returns a verdict for every
    text all the same: the empty text, on which the division would
    raise, is dropped for its word count.  So the per-page pipeline
    returns for every text, and no chunk it returns has an empty
    text. *)
Theorem text_heuristics_total (doc : string) (page_num : Z) (txt : string) :
  (exists keep, _is_meaningful_section txt = Ok keep)
  /\ (exists chunks,
         page_chunks doc page_num txt = Ok chunks
         /\ Forall (fun c => chunk_text c <> "") chunks)
  /\ _is_meaningful_section "" = Ok false
  /\ word_count "" < 10
  /\ truediv (count newline "") (len "") = Raise ZeroDivisionError
  /\ truediv (count_by is_digit "") (len "") = Raise ZeroDivisionError.
Proof.
  split.
  { eexists. apply is_meaningful_section_value. }
  split.
  { unfold page_chunks. destruct (is_empty txt).
    - exists []. split; [reflexivity|constructor].
    - apply keep_sections_total. }
  repeat split.
Qed.

(** ** Query builder *)

Lemma append_if_spec (parts : list string) (prefix : string)
    (items : list string) :
  append_if parts prefix items = (parts ++ optional_part prefix items)%list.
Proof.
  unfold append_if, optional_part.
  destruct items; simpl; [now rewrite app_nil_r|reflexivity].
Qed.

(** C9. The query is the present parts joined by [" | "], in the order
    task, expertise, focus, requirements, role; the role part is always
    there. *)
Theorem create_persona_query_spec :
  (forall persona job,
      create_persona_query persona job
      = join " | " (query_parts_spec persona job))
  /\ create_persona_query
       (mkPersona (Some "Analyst") (Some ["finance"]) None)
       (mkJob (Some "Summarize risk") None)
     = "Summarize risk | Expertise in: finance | Role: Analyst".
Proof.
  split; [|reflexivity].
  intros persona job.
  unfold create_persona_query, query_parts_spec.
  rewrite !append_if_spec, <- !app_assoc. reflexivity.
Qed.

(** ** Section segmentation *)

Lemma seg_loop_no_header (lines : list string) :
  (forall raw, In raw lines -> _is_section_header (strip raw) = false) ->
  forall st,
    seg_loop lines st
    = mkSeg (sections st)
        (mkSection (title (current st))
           (text (current st) ++ body_of lines)).
Proof.
  unfold seg_loop.
  induction lines as [|raw lines IH]; intros Hno st; simpl.
  - rewrite append_nil_r. now destruct st as [secs [t x]].
  - rewrite IH by (intros; apply Hno; now right).
    unfold seg_step.
    destruct (is_empty (strip raw)); [reflexivity|].
    rewrite (Hno raw) by now left.
    simpl. now rewrite !append_assoc.
Qed.

Lemma blank_body_of (lines : list string) :
  blank (body_of lines) = forallb blank lines.
Proof.
  induction lines as [|raw lines IH]; simpl; [reflexivity|].
  rewrite <- IH, <- (is_empty_strip raw).
  destruct (is_empty (strip raw)) eqn:E; [reflexivity|].
  rewrite !blank_app, is_empty_strip in *.
  rewrite blank_strip, E. reflexivity.
Qed.

(** C1, as the code has it.  A page with a non-empty line and no header
    line yields exactly one section; its title is the literal
    ["Content"], the default of the final flush, and its text is the
    accumulated body.  The title cascade is not reached. *)
Theorem no_header_page_single_section (txt : string) :
  (exists raw, In raw (split newline txt) /\ strip raw <> "") ->
  (forall raw,
      In raw (split newline txt) -> _is_section_header (strip raw) = false) ->
  _extract_sections_from_page txt
  = [mkSection "Content" (strip (body_of (split newline txt)))].
Proof.
  intros (raw & Hin & Hne) Hno.
  unfold _extract_sections_from_page.
  rewrite (seg_loop_no_header _ Hno). simpl.
  unfold seg_flush. simpl.
  assert (Hb : blank (body_of (split newline txt)) = false).
  { rewrite blank_body_of.
    destruct (forallb blank (split newline txt)) eqn:E; [|reflexivity].
    rewrite forallb_forall in E. specialize (E raw Hin).
    rewrite <- is_empty_strip in E. apply is_empty_true in E.
    contradiction. }
  unfold truthy. rewrite is_empty_strip, Hb. reflexivity.
Qed.

Lemma no_header_page_single_section_witness :
  _extract_sections_from_page plain_page
  = [mkSection "Content" "the quick brown fox jumps over the lazy dog"].
Proof.
  apply (no_header_page_single_section plain_page).
  - exists plain_page. split; [now left|]. vm_compute. discriminate.
  - intros raw [<-|[]]. vm_compute. reflexivity.
Defined.

(** C1, as stated, fails at [plain_page]: its only line is not empty and
    matches none of the five patterns, the cascade picks the whole
    sentence (43 characters), and the section is titled ["Content"]. *)
Lemma no_header_page_title_not_cascade :
  split newline plain_page = [plain_page]
  /\ strip plain_page <> ""
  /\ forallb (fun p => negb (re_match p (strip plain_page))) patterns = true
  /\ _is_section_header (strip plain_page) = false
  /\ _extract_meaningful_title plain_page = plain_page
  /\ ~ (exists s,
          _extract_sections_from_page plain_page = [s]
          /\ title s = _extract_meaningful_title plain_page).
Proof.
  repeat split; try (vm_compute; congruence).
  intros (s & Hs & Ht).
  vm_compute in Hs. injection Hs as <-.
  vm_compute in Ht. discriminate.
Qed.

(** Where the cascade does run: every non-empty line is a header
    without body, so the loop yields nothing. *)
Example header_only_page_uses_cascade :
  _extract_sections_from_page "Introduction"
  = [mkSection (_extract_meaningful_title "Introduction") "Introduction"].
Proof. reflexivity. Qed.

(** *** Newlines never reach an accumulated section text *)

Lemma no_newline_app (s t : string) :
  no_newline s -> no_newline t -> no_newline (s ++ t).
Proof.
  unfold no_newline, count. intros Hs Ht.
  rewrite count_by_app. lia.
Qed.

Lemma no_newline_strip (s : string) : no_newline s -> no_newline (strip s).
Proof.
  unfold no_newline, count. intro Hs.
  pose proof (count_by_strip (Ascii.eqb newline) s).
  pose proof (count_by_nonneg (Ascii.eqb newline) (strip s)).
  lia.
Qed.

Lemma no_newline_split (txt raw : string) :
  In raw (split newline txt) -> no_newline raw.
Proof. apply count_by_split_by. Qed.

Lemma seg_step_clean (st : SegState) (raw : string) :
  clean st -> no_newline raw -> clean (seg_step st raw).
Proof.
  intros [Hsecs Hcur] Hraw. unfold seg_step.
  destruct (is_empty (strip raw)); [now split|].
  destruct (_is_section_header (strip raw)).
  - split; [|reflexivity]. simpl.
    destruct (truthy (strip (text (current st)))); [|exact Hsecs].
    apply Forall_app. split; [exact Hsecs|].
    constructor; [|constructor]. simpl. now apply no_newline_strip.
  - split; [exact Hsecs|]. simpl.
    apply no_newline_app; [exact Hcur|].
    apply no_newline_app; [now apply no_newline_strip|reflexivity].
Qed.

Lemma seg_loop_clean (lines : list string) (st : SegState) :
  clean st -> Forall no_newline lines -> clean (seg_loop lines st).
Proof.
  unfold seg_loop. revert st.
  induction lines as [|raw lines IH]; intros st Hst Hl; simpl; [exact Hst|].
  inversion Hl; subst.
  apply IH; [now apply seg_step_clean|assumption].
Qed.

Lemma seg_step_live (st : SegState) (raw : string) :
  live st -> live (seg_step st raw).
Proof.
  intros Hst. unfold seg_step.
  destruct (is_empty (strip raw)) eqn:He; [exact Hst|].
  destruct (_is_section_header (strip raw)).
  - left. simpl. unfold truthy. rewrite is_empty_strip.
    destruct (blank (text (current st))) eqn:Hb; simpl.
    + destruct Hst as [Hs|Hb']; [exact Hs|congruence].
    + intro E. now apply app_eq_nil in E as [_ E].
  - right. simpl. rewrite !blank_app, blank_strip.
    rewrite is_empty_strip in He. rewrite He.
    now rewrite andb_false_r.
Qed.

Lemma seg_step_body_live (st : SegState) (raw : string) :
  is_body raw = true -> live (seg_step st raw).
Proof.
  unfold is_body. rewrite andb_true_iff, !negb_true_iff.
  intros [He Hh]. unfold seg_step. rewrite He, Hh.
  right. simpl. rewrite !blank_app, blank_strip.
  rewrite is_empty_strip in He. rewrite He.
  now rewrite andb_false_r.
Qed.

Lemma seg_loop_live (lines : list string) (st : SegState) :
  live st -> live (seg_loop lines st).
Proof.
  unfold seg_loop. revert st.
  induction lines as [|raw lines IH]; intros st Hst; simpl; [exact Hst|].
  apply IH. now apply seg_step_live.
Qed.

Lemma seg_loop_body_live (lines : list string) (st : SegState) (raw : string) :
  In raw lines -> is_body raw = true -> live (seg_loop lines st).
Proof.
  intros Hin Hbody.
  apply in_split in Hin as (l1 & l2 & ->).
  unfold seg_loop. rewrite fold_left_app. simpl.
  apply (seg_loop_live l2). now apply seg_step_body_live.
Qed.

Lemma seg_flush_live (st : SegState) : live st -> seg_flush st <> [].
Proof.
  intros Hst. unfold seg_flush, truthy. rewrite is_empty_strip.
  destruct (blank (text (current st))) eqn:Hb; simpl.
  - destruct Hst as [Hs|Hb']; [exact Hs|congruence].
  - intro E. now apply app_eq_nil in E as [_ E].
Qed.

Lemma seg_flush_clean (st : SegState) :
  clean st -> Forall (fun s => no_newline (text s)) (seg_flush st).
Proof.
  intros [Hsecs Hcur]. unfold seg_flush.
  destruct (truthy (strip (text (current st)))); [|exact Hsecs].
  apply Forall_app. split; [exact Hsecs|].
  constructor; [|constructor]. simpl. now apply no_newline_strip.
Qed.

Lemma newline_check_off (s : string) :
  no_newline s -> Qgtb (ratio (count newline s) (len s)) (1 # 10) = false.
Proof.
  unfold no_newline. intros ->. unfold ratio, Qgtb.
  apply negb_false_iff, Qle_bool_iff.
  assert (E : (inject_Z 0 / inject_Z (len s) == 0)%Q).
  { unfold Qdiv. apply Qmult_0_l. }
  rewrite E. discriminate.
Qed.

(** C6, as the code has it.  On a page with a body line, every section
    comes from the accumulator, in which each trimmed body line is
    followed by one space: no section text handed to the filter holds
    a newline, and the newline-density check is off for it. *)
Theorem section_text_has_no_newline (txt : string) :
  (exists raw, In raw (split newline txt) /\ is_body raw = true) ->
  _extract_sections_from_page txt <> []
  /\ Forall (fun s =>
               count newline (text s) = 0
               /\ Qgtb (ratio (count newline (text s)) (len (text s)))
                    (1 # 10) = false)
       (_extract_sections_from_page txt).
Proof.
  intros (raw & Hin & Hbody).
  unfold _extract_sections_from_page.
  set (st := seg_loop (split newline txt) (mkSeg [] (mkSection "" ""))).
  assert (Hlive : seg_flush st <> []).
  { apply seg_flush_live. now apply (seg_loop_body_live _ _ raw). }
  assert (Hclean : Forall (fun s => no_newline (text s)) (seg_flush st)).
  { apply seg_flush_clean, seg_loop_clean.
    - split; [constructor|reflexivity].
    - apply Forall_forall. intros l Hl. now apply (no_newline_split txt). }
  destruct (seg_flush st) as [|s secs]; [contradiction|].
  split; [discriminate|].
  eapply Forall_impl; [|exact Hclean].
  intros a Ha. split; [exact Ha|now apply newline_check_off].
Qed.

Lemma section_text_has_no_newline_witness :
  _extract_sections_from_page two_line_page <> []
  /\ Forall (fun s =>
               count newline (text s) = 0
               /\ Qgtb (ratio (count newline (text s)) (len (text s)))
                    (1 # 10) = false)
       (_extract_sections_from_page two_line_page).
Proof.
  apply (section_text_has_no_newline two_line_page).
  exists "alpha beta". split; [now left|reflexivity].
Defined.

(** C6, as stated, fails at [two_line_page]: two body lines, one
    section, and its text holds a space where the newline was. *)
Lemma section_text_newline_lost :
  split newline two_line_page = ["alpha beta"; "gamma delta"]
  /\ is_body "alpha beta" = true
  /\ is_body "gamma delta" = true
  /\ count newline two_line_page = 1
  /\ _extract_sections_from_page two_line_page
     = [mkSection "Content" "alpha beta gamma delta"]
  /\ ~ (exists s,
          In s (_extract_sections_from_page two_line_page)
          /\ count newline (text s) > 0).
Proof.
  repeat split; try (vm_compute; congruence).
  intros (s & Hs & Hn).
  vm_compute in Hs. destruct Hs as [<-|[]].
  vm_compute in Hn. discriminate.
Qed.

(** ** Sorting *)

Section StableSort.

Variable A : Type.
Variable lt : A -> A -> bool.

(** [lt] compares keys that are totally ordered. *)
Hypothesis lt_asym : forall a b, lt a b = true -> lt b a = false.
Hypothesis lt_cotrans :
  forall a b c, lt a c = true -> lt a b = true \/ lt b c = true.

(** [before a b]: [a] stands before [b] in the list to sort. *)
Variable before : A -> A -> Prop.

Lemma insert_by_perm (x : A) (l : list A) :
  Permutation (x :: l) (insert_by lt x l).
Proof.
  induction l as [|y l IH]; simpl; [reflexivity|].
  destruct (lt y x); [|reflexivity].
  rewrite perm_swap. now constructor.
Qed.

Lemma sort_asc_perm (l : list A) : Permutation l (sort_asc lt l).
Proof.
  induction l as [|x l IH]; simpl; [constructor|].
  rewrite <- insert_by_perm. now constructor.
Qed.

Lemma insert_by_sorted (x : A) (l : list A) :
  Forall (before x) l ->
  StronglySorted (asc_stable lt before) l ->
  StronglySorted (asc_stable lt before) (insert_by lt x l).
Proof.
  intros Hx Hl.
  induction Hl as [|y l Hl IH Hy]; simpl.
  - constructor; constructor.
  - inversion Hx as [|? ? Hxy Hxl]; subst.
    destruct (lt y x) eqn:Hyx.
    + constructor; [now apply IH|].
      rewrite <- insert_by_perm.
      constructor; [now left|exact Hy].
    + constructor; [now constructor|].
      constructor; [right; now split|].
      rewrite Forall_forall in *. intros z Hz.
      right. split; [|now apply Hxl].
      destruct (lt z x) eqn:Hzx; [|reflexivity].
      destruct (lt_cotrans y Hzx) as [Hzy|E]; [|congruence].
      destruct (Hy z Hz) as [Hyz|[Hzy' _]]; [|congruence].
      apply lt_asym in Hyz. congruence.
Qed.

Lemma sort_asc_sorted (l : list A) :
  StronglySorted before l -> StronglySorted (asc_stable lt before) (sort_asc lt l).
Proof.
  induction 1 as [|x l Hl IH Hx]; simpl; [constructor|].
  apply insert_by_sorted; [|exact IH].
  now rewrite <- sort_asc_perm.
Qed.

End StableSort.

Lemma StronglySorted_snoc (A : Type) (R : A -> A -> Prop) (l : list A)
    (x : A) :
  StronglySorted R l -> Forall (fun a => R a x) l ->
  StronglySorted R (l ++ [x]).
Proof.
  induction 1 as [|y l Hl IH Hy]; intros Hx; simpl.
  - constructor; constructor.
  - inversion Hx; subst.
    constructor; [now apply IH|].
    apply Forall_app. split; [exact Hy|]. now constructor.
Qed.

Lemma Forall_firstn (A : Type) (P : A -> Prop) (n : nat) (l : list A) :
  Forall P l -> Forall P (firstn n l).
Proof.
  intros Hl. revert n.
  induction Hl as [|x l Hx Hl IH]; intros [|n]; simpl; constructor; auto.
Qed.

Section SortedFacts.

Variable A : Type.
Variable R : A -> A -> Prop.

Lemma StronglySorted_rev (l : list A) :
  StronglySorted R l -> StronglySorted (fun a b => R b a) (rev l).
Proof.
  induction 1 as [|x l Hl IH Hx]; simpl; [constructor|].
  apply StronglySorted_snoc; [exact IH|].
  apply Forall_forall. intros a Ha.
  rewrite Forall_forall in Hx. apply Hx. now apply in_rev.
Qed.

Lemma StronglySorted_firstn (n : nat) (l : list A) :
  StronglySorted R l -> StronglySorted R (firstn n l).
Proof.
  intros Hl. revert n.
  induction Hl as [|x l Hl IH Hx]; intros [|n]; simpl; try constructor.
  - apply IH.
  - now apply Forall_firstn.
Qed.

Lemma StronglySorted_nth (l : list A) :
  StronglySorted R l ->
  forall p q a b,
    (p < q)%nat -> nth_error l p = Some a -> nth_error l q = Some b ->
    R a b.
Proof.
  induction 1 as [|x l Hl IH Hx]; intros p q a b Hpq Hp Hq.
  - destruct p; discriminate.
  - destruct q as [|q]; [lia|].
    destruct p as [|p]; simpl in *.
    + injection Hp as <-.
      rewrite Forall_forall in Hx. apply Hx.
      eapply nth_error_In. exact Hq.
    + apply (IH p q); [lia|assumption|assumption].
Qed.

End SortedFacts.

Lemma StronglySorted_impl (A : Type) (R R' : A -> A -> Prop) (l : list A) :
  (forall a b, R a b -> R' a b) ->
  StronglySorted R l -> StronglySorted R' l.
Proof.
  intros HR. induction 1 as [|x l Hl IH Hx]; constructor; [exact IH|].
  eapply Forall_impl; [|exact Hx]. intros a. apply HR.
Qed.

Lemma sort_reverse_perm (A : Type) (lt : A -> A -> bool) (l : list A) :
  Permutation l (sort_reverse lt l).
Proof.
  unfold sort_reverse.
  rewrite <- Permutation_rev, <- sort_asc_perm.
  apply Permutation_rev.
Qed.

(** ** Relevance ranker *)

Lemma Qltb_true (x y : Q) : Qltb x y = true <-> (x < y)%Q.
Proof. unfold Qltb. apply (Qgtb_true y x). Qed.

Lemma Qltb_false (x y : Q) : Qltb x y = false <-> (y <= x)%Q.
Proof.
  unfold Qltb. rewrite negb_false_iff. apply Qle_bool_iff.
Qed.

Lemma key_lt_asym (a b : Q * nat) : key_lt a b = true -> key_lt b a = false.
Proof.
  unfold key_lt. rewrite Qltb_true, Qltb_false. apply Qlt_le_weak.
Qed.

Lemma key_lt_cotrans (a b c : Q * nat) :
  key_lt a c = true -> key_lt a b = true \/ key_lt b c = true.
Proof.
  unfold key_lt. rewrite !Qltb_true. intros Hac.
  destruct (Qlt_le_dec (fst a) (fst b)) as [Hab|Hba]; [now left|].
  right. eapply Qle_lt_trans; eassumption.
Qed.

Lemma weigh_lower_bound (mul : Q -> Q -> Q) (pairs : list (Q * Chunk))
    (i : nat) :
  Forall (fun e => (i <= snd e)%nat) (weigh mul i pairs).
Proof.
  revert i. induction pairs as [|[s c] pairs IH]; intros i; simpl.
  - constructor.
  - constructor; [simpl; lia|].
    eapply Forall_impl; [|apply (IH (S i))]. simpl. intros; lia.
Qed.

Lemma weigh_increasing (mul : Q -> Q -> Q) (pairs : list (Q * Chunk))
    (i : nat) :
  StronglySorted (fun a b => (snd a < snd b)%nat) (weigh mul i pairs).
Proof.
  revert i. induction pairs as [|[s c] pairs IH]; intros i; simpl.
  - constructor.
  - constructor; [apply IH|].
    eapply Forall_impl; [|apply (weigh_lower_bound mul pairs (S i))].
    simpl. intros; lia.
Qed.

Lemma weigh_length (mul : Q -> Q -> Q) (pairs : list (Q * Chunk))
    (i : nat) :
  length (weigh mul i pairs) = length pairs.
Proof.
  revert i. induction pairs as [|[s c] pairs IH]; intros i; simpl; auto.
Qed.

Lemma sort_reverse_desc_stable (mul : Q -> Q -> Q)
    (pairs : list (Q * Chunk)) :
  StronglySorted desc_stable (sort_reverse key_lt (weigh mul 0 pairs)).
Proof.
  unfold sort_reverse.
  pose (before := fun a b : Q * nat => (snd b < snd a)%nat).
  assert (Hrev : StronglySorted before (rev (weigh mul 0 pairs))).
  { apply (StronglySorted_rev (weigh_increasing mul pairs 0)). }
  apply (sort_asc_sorted key_lt key_lt_asym key_lt_cotrans) in Hrev.
  apply StronglySorted_rev in Hrev.
  eapply StronglySorted_impl; [|exact Hrev].
  intros a b [Hlt|[Hnlt Hidx]]; unfold desc_stable.
  - split; [now apply key_lt_asym|now left].
  - split; [exact Hnlt|right; exact Hidx].
Qed.

Lemma nth_error_combine (A B : Type) (l : list A) (l' : list B) (n : nat)
    (a : A) (b : B) :
  nth_error (combine l l') n = Some (a, b)
  <-> nth_error l n = Some a /\ nth_error l' n = Some b.
Proof.
  revert l' n.
  induction l as [|x l IH]; intros [|y l'] [|n]; simpl;
    try (split; [discriminate|intros [? ?]; discriminate]).
  - split; [intros [= -> ->]; auto|intros [[= ->] [= ->]]; auto].
  - apply IH.
Qed.

Lemma weigh_nth (mul : Q -> Q -> Q) (pairs : list (Q * Chunk))
    (i k : nat) :
  nth_error (weigh mul i pairs) k
  = match nth_error pairs k with
    | Some (s, c) => Some (mul s (weight_of c), (i + k)%nat)
    | None => None
    end.
Proof.
  revert i k. induction pairs as [|[s c] pairs IH]; intros i [|k]; simpl;
    try reflexivity.
  - now rewrite Nat.add_0_r.
  - rewrite IH. destruct (nth_error pairs k) as [[s' c']|]; [|reflexivity].
    do 2 f_equal. lia.
Qed.

Lemma weighted_entries_ok (mul : Q -> Q -> Q) (secs : list Chunk)
    (sims : list Q) :
  Forall (entry_ok mul secs sims) (weigh mul 0 (combine sims secs)).
Proof.
  apply Forall_forall. intros e He.
  apply In_nth_error in He as [k Hk].
  rewrite weigh_nth in Hk.
  destruct (nth_error (combine sims secs) k) as [[s c]|] eqn:Hc;
    [|discriminate].
  injection Hk as <-. apply nth_error_combine in Hc as [Hs Hc].
  exists s, c. simpl. auto.
Qed.

Lemma rank_loop_ok (mul : Q -> Q -> Q) (secs : list Chunk) (sims : list Q)
    (selected : list (Q * nat)) :
  Forall (entry_ok mul secs sims) selected ->
  forall rank,
  exists out,
    rank_loop secs sims rank selected = Ok out
    /\ Forall2 (picked mul secs sims) selected out
    /\ map importance_rank out
       = map (fun k => rank + Z.of_nat k) (seq 1 (length selected)).
Proof.
  induction 1 as [|[w idx] selected (s & c & Hs & Hc & Hw) Hsel IH];
    intros rank; simpl.
  - exists []. repeat split. constructor.
  - destruct (IH (rank + 1)) as (rest & Hrest & Hpick & Hranks).
    simpl in Hs, Hc, Hw.
    unfold index. rewrite Hc, Hs. simpl. rewrite Hrest. simpl.
    eexists. split; [reflexivity|]. split.
    + constructor; [|exact Hpick]. repeat split; assumption.
    + simpl. f_equal.
      rewrite Hranks, <- (seq_shift (length selected) 1), map_map.
      apply map_ext. intros k. lia.
Qed.

Lemma slice_to_firstn (A : Type) (k : Z) (l : list A) :
  exists n, slice_to k l = firstn n l.
Proof.
  unfold slice_to. destruct (k <? 0); eexists; reflexivity.
Qed.

Lemma slice_to_length (A : Type) (k : Z) (l : list A) :
  0 <= k ->
  Z.of_nat (length (slice_to k l)) = Z.min k (Z.of_nat (length l)).
Proof.
  intros Hk. unfold slice_to.
  destruct (Z.ltb_spec k 0); [lia|].
  rewrite length_firstn. lia.
Qed.

Lemma weighted_scores_length (m : EmbeddingModel) (secs : list Chunk)
    (query : string) :
  length (weighted_scores_of m secs query) = length secs.
Proof.
  unfold weighted_scores_of, similarities_of.
  rewrite weigh_length, length_combine, scores_length, length_map.
  apply Nat.min_id.
Qed.

Lemma selected_entries_ok (m : EmbeddingModel) (top_k : Z)
    (secs : list Chunk) (query : string) :
  Forall (entry_ok (times m) secs (similarities_of m secs query))
    (selected_of m top_k secs query).
Proof.
  unfold selected_of.
  destruct (slice_to_firstn top_k
              (sort_reverse key_lt (weighted_scores_of m secs query)))
    as [n ->].
  apply Forall_firstn.
  rewrite <- sort_reverse_perm.
  apply weighted_entries_ok.
Qed.

Lemma selected_sorted (m : EmbeddingModel) (top_k : Z) (secs : list Chunk)
    (query : string) :
  StronglySorted desc_stable (selected_of m top_k secs query).
Proof.
  unfold selected_of.
  destruct (slice_to_firstn top_k
              (sort_reverse key_lt (weighted_scores_of m secs query)))
    as [n ->].
  apply StronglySorted_firstn, sort_reverse_desc_stable.
Qed.

Lemma selected_of_nil (m : EmbeddingModel) (top_k : Z) (query : string) :
  selected_of m top_k [] query = [].
Proof.
  unfold selected_of, weighted_scores_of.
  destruct (slice_to_firstn top_k
    (sort_reverse key_lt
       (weigh (times m) 0 (combine (similarities_of m [] query) []))))
    as [n ->].
  rewrite combine_nil. simpl. apply firstn_nil.
Qed.

(** The ranker never raises, and its output follows the selected
    entries one by one. *)
Lemma rank_sections_ok (m : EmbeddingModel) (top_k : Z) (secs : list Chunk)
    (query : string) :
  exists out,
    rank_sections (Some m) top_k secs query = Ok out
    /\ Forall2 (picked (times m) secs (similarities_of m secs query))
         (selected_of m top_k secs query) out
    /\ map importance_rank out = map Z.of_nat (seq 1 (length out)).
Proof.
  unfold rank_sections.
  destruct secs as [|c secs]; simpl negb; cbv iota.
  - exists []. rewrite selected_of_nil. repeat split. constructor.
  - destruct (rank_loop_ok (selected_entries_ok m top_k (c :: secs) query) 0)
      as (out & Hout & Hpick & Hranks).
    exists out. split; [exact Hout|]. split; [exact Hpick|].
    rewrite Hranks, (Forall2_length Hpick).
    apply map_ext. intros k. lia.
Qed.

Lemma picked_sorted (mul : Q -> Q -> Q) (secs : list Chunk)
    (sims : list Q)
    (selected : list (Q * nat)) (out : list RankedSection) :
  Forall2 (picked mul secs sims) selected out ->
  StronglySorted desc_stable selected ->
  StronglySorted (fun a b => (weighted mul b <= weighted mul a)%Q) out.
Proof.
  induction 1 as [|e r selected out Her Hrest IH]; intros Hs.
  - constructor.
  - inversion Hs as [|? ? Hs' He]; subst.
    constructor; [now apply IH|].
    clear IH Hs Hs'. destruct Her as (_ & _ & Hw).
    induction Hrest as [|e' r' selected out (_ & _ & Hw') Hrest IH].
    + constructor.
    + inversion He as [|? ? [Hnlt _] He']; subst.
      constructor; [|now apply IH].
      unfold key_lt in Hnlt. apply Qltb_false in Hnlt.
      now rewrite Hw, Hw' in Hnlt.
Qed.

Lemma Forall2_map_snd (mul : Q -> Q -> Q) (secs : list Chunk)
    (sims : list Q)
    (selected : list (Q * nat)) (out : list RankedSection) :
  Forall2 (picked mul secs sims) selected out ->
  Forall2 (fun i r =>
             nth_error secs i = Some (ranked r)
             /\ nth_error sims i = Some (relevance_score r))
    (map snd selected) out.
Proof.
  induction 1 as [|e r selected out (Hc & Hs & _) Hrest IH]; simpl;
    constructor; auto.
Qed.

(** C2. Every output item reports the raw similarity of its section,
    and the output is ordered by the weighted score, raw similarity
    times the weight of the content type; the weights are those of the
    table, 1.0 for any other label.  A [references] section of
    similarity 0.9 (weighted 0.45) comes after a [methodology] section
    of similarity 0.7 (weighted 0.91), and rank 1 reports 0.7. *)
Theorem relevance_score_is_raw_similarity :
  (forall m top_k secs query,
      exists out sel,
        rank_sections (Some m) top_k secs query = Ok out
        /\ Forall2 (fun i r =>
                      nth_error secs i = Some (ranked r)
                      /\ nth_error (similarities_of m secs query) i
                         = Some (relevance_score r))
             sel out
        /\ StronglySorted
             (fun a b => (weighted (times m) b <= weighted (times m) a)%Q)
             out)
  /\ map (fun label => dict_get weights label 1%Q) labels
     = [12 # 10; 11 # 10; 13 # 10; 13 # 10; 12 # 10; 5 # 10; 1 # 1]%Q
  /\ (forall label, ~ In label labels -> dict_get weights label 1%Q = 1%Q)
  /\ rank_sections (Some example_model) 10
       [references_section; methodology_section] "query"
     = Ok [ mkRanked methodology_section 1 (7 # 10);
            mkRanked references_section 2 (9 # 10) ]
  /\ (weighted Qmult (mkRanked references_section 2 (9 # 10)) == 45 # 100)%Q
  /\ (weighted Qmult (mkRanked methodology_section 1 (7 # 10)) == 91 # 100)%Q.
Proof.
  split.
  { intros m top_k secs query.
    destruct (rank_sections_ok m top_k secs query) as (out & Hout & Hpick & _).
    exists out, (map snd (selected_of m top_k secs query)).
    split; [exact Hout|]. split.
    - exact (Forall2_map_snd Hpick).
    - eapply picked_sorted; [exact Hpick|apply selected_sorted]. }
  split; [reflexivity|].
  split.
  { intros label Hnot. unfold labels in Hnot. simpl in Hnot.
    unfold weights. cbn [dict_get].
    repeat match goal with
           | |- context [String.eqb ?k label] =>
               destruct (String.eqb_spec k label); [exfalso; tauto|]
           end.
    reflexivity. }
  repeat split.
Qed.

Lemma relevance_score_is_raw_similarity_witness :
  dict_get weights "figure" 1%Q = 1%Q.
Proof.
  destruct relevance_score_is_raw_similarity as (_ & _ & Hdefault & _).
  apply (Hdefault "figure").
  unfold labels. simpl. intuition discriminate.
Defined.

(** C8, as the code has it.  The ranker never raises.  It returns an
    empty list when there is no section and when there is no model.  An
    empty query is ranked as any other query is: with a model and
    [top_k >= 0], [min top_k n] of the [n] sections are returned. *)
Theorem rank_sections_empty_result :
  (forall model top_k secs query,
      exists out, rank_sections model top_k secs query = Ok out)
  /\ (forall model top_k query, rank_sections model top_k [] query = Ok [])
  /\ (forall top_k secs query, rank_sections None top_k secs query = Ok [])
  /\ (forall m top_k secs,
         0 <= top_k ->
         exists out,
           rank_sections (Some m) top_k secs "" = Ok out
           /\ Z.of_nat (length out) = Z.min top_k (Z.of_nat (length secs))).
Proof.
  split.
  { intros [m|] top_k secs query.
    - destruct (rank_sections_ok m top_k secs query) as (out & Hout & _).
      now exists out.
    - exists []. unfold rank_sections. now destruct (negb (nonempty secs)). }
  split; [reflexivity|].
  split.
  { intros top_k secs query. unfold rank_sections.
    now destruct (negb (nonempty secs)). }
  intros m top_k secs Hk.
  destruct (rank_sections_ok m top_k secs "") as (out & Hout & Hpick & _).
  exists out. split; [exact Hout|].
  rewrite <- (Forall2_length Hpick). unfold selected_of.
  rewrite slice_to_length by exact Hk.
  f_equal. f_equal.
  rewrite <- (Permutation_length (sort_reverse_perm key_lt _)).
  apply weighted_scores_length.
Qed.

Lemma rank_sections_empty_result_witness :
  exists out,
    rank_sections (Some example_model) 1
      [references_section; methodology_section] "" = Ok out
    /\ Z.of_nat (length out) = Z.min 1 2.
Proof.
  destruct rank_sections_empty_result as (_ & _ & _ & H).
  apply (H example_model 1 [references_section; methodology_section]).
  lia.
Defined.

(** C8, as stated, fails for the empty query: with a model and two
    sections, both are ranked. *)
Lemma empty_query_is_ranked :
  rank_sections (Some example_model) 10
    [references_section; methodology_section] ""
  = Ok [ mkRanked methodology_section 1 (7 # 10);
         mkRanked references_section 2 (9 # 10) ]
  /\ rank_sections (Some example_model) 10
       [references_section; methodology_section] "" <> Ok [].
Proof.
  split; [reflexivity|discriminate].
Qed.

Lemma weigh_entry_at (mul : Q -> Q -> Q) (pairs : list (Q * Chunk)) :
  Forall (fun e => nth_error (weigh mul 0 pairs) (snd e) = Some e)
    (weigh mul 0 pairs).
Proof.
  apply Forall_forall. intros e He.
  apply In_nth_error in He as [k Hk].
  pose proof Hk as Hk'. rewrite weigh_nth in Hk'.
  destruct (nth_error pairs k) as [[s c]|]; [|discriminate].
  injection Hk' as <-. exact Hk.
Qed.

Lemma selected_entry_at (m : EmbeddingModel) (top_k : Z)
    (secs : list Chunk) (query : string) :
  Forall (fun e => nth_error (pooled_weighted m secs query) (snd e)
                   = Some (fst e))
    (selected_of m top_k secs query).
Proof.
  unfold selected_of, pooled_weighted.
  destruct (slice_to_firstn top_k
              (sort_reverse key_lt (weighted_scores_of m secs query)))
    as [n ->].
  apply Forall_firstn.
  rewrite <- sort_reverse_perm.
  unfold weighted_scores_of.
  eapply Forall_impl; [|apply weigh_entry_at].
  intros e He. simpl in He.
  now rewrite nth_error_map, He.
Qed.

(** C3. Two sections of equal weighted score that both reach the
    output stand there in their pooled order.  [sel] gives, for each
    output position, the pooled index of the section ranked there. *)
Theorem ties_keep_pooled_order (m : EmbeddingModel) (top_k : Z)
    (secs : list Chunk) (query : string) :
  exists out sel,
    rank_sections (Some m) top_k secs query = Ok out
    /\ Forall2 (fun i r =>
                  nth_error secs i = Some (ranked r)
                  /\ nth_error (similarities_of m secs query) i
                     = Some (relevance_score r))
         sel out
    /\ forall p q i j wi wj,
         nth_error sel p = Some i ->
         nth_error sel q = Some j ->
         nth_error (pooled_weighted m secs query) i = Some wi ->
         nth_error (pooled_weighted m secs query) j = Some wj ->
         (wi == wj)%Q ->
         (i < j)%nat ->
         (p < q)%nat.
Proof.
  destruct (rank_sections_ok m top_k secs query) as (out & Hout & Hpick & _).
  exists out, (map snd (selected_of m top_k secs query)).
  split; [exact Hout|]. split; [exact (Forall2_map_snd Hpick)|].
  intros p q i j wi wj Hp Hq Hi Hj Heq Hij.
  rewrite nth_error_map in Hp, Hq.
  destruct (nth_error (selected_of m top_k secs query) p) as [a|] eqn:Ha;
    [|discriminate].
  destruct (nth_error (selected_of m top_k secs query) q) as [b|] eqn:Hb;
    [|discriminate].
  injection Hp as Hp. injection Hq as Hq.
  pose proof (selected_entry_at m top_k secs query) as Hat.
  rewrite Forall_forall in Hat.
  pose proof (Hat a (nth_error_In _ _ Ha)) as Hwa.
  pose proof (Hat b (nth_error_In _ _ Hb)) as Hwb.
  rewrite Hp, Hi in Hwa. rewrite Hq, Hj in Hwb.
  injection Hwa as Hwa. injection Hwb as Hwb.
  destruct (Nat.lt_total p q) as [Hlt|[->|Hgt]]; [exact Hlt| |].
  - rewrite Ha in Hb. injection Hb as <-. lia.
  - exfalso.
    destruct (StronglySorted_nth (selected_sorted m top_k secs query)
                Hgt Hb Ha) as [_ [Hlt|Hidx]].
    + unfold key_lt in Hlt. apply Qltb_true in Hlt.
      rewrite <- Hwa, <- Hwb, Heq in Hlt.
      exact (Qlt_irrefl _ Hlt).
    + lia.
Qed.

Example tied_sections_ranked :
  rank_sections (Some example_model) 10 tied_sections "query"
  = Ok [ mkRanked methodology_section 1 (7 # 10);
         mkRanked (mkChunk "a.pdf" "first" "A" 1 (Some "content")) 2
           (7 # 10);
         mkRanked (mkChunk "b.pdf" "second" "B" 1 (Some "content")) 3
           (7 # 10) ].
Proof. reflexivity. Qed.

(** ** Top-K *)

(** [top_k] is an int: a negative one makes the slice drop sections
    from the end of the ranking. *)
Example negative_top_k_drops_last :
  rank_sections (Some example_model) (-1) tied_sections "query"
  = Ok [ mkRanked methodology_section 1 (7 # 10);
         mkRanked (mkChunk "a.pdf" "first" "A" 1 (Some "content")) 2
           (7 # 10) ].
Proof. reflexivity. Qed.

Lemma weigh_indices (mul : Q -> Q -> Q) (pairs : list (Q * Chunk))
    (i : nat) :
  map snd (weigh mul i pairs) = seq i (length pairs).
Proof.
  revert i. induction pairs as [|[s c] pairs IH]; intros i; simpl.
  - reflexivity.
  - now rewrite IH.
Qed.

Lemma nth_error_seq_self (A : Type) (pre l : list A) :
  map (nth_error (pre ++ l)%list) (seq (length pre) (length l))
  = map Some l.
Proof.
  revert pre. induction l as [|x l IH]; intros pre; simpl.
  - reflexivity.
  - rewrite nth_error_app2, Nat.sub_diag by lia. simpl. f_equal.
    specialize (IH (pre ++ [x])%list).
    rewrite <- app_assoc, length_app, Nat.add_1_r in IH. exact IH.
Qed.

Lemma picked_sections (mul : Q -> Q -> Q) (secs : list Chunk)
    (sims : list Q)
    (selected : list (Q * nat)) (out : list RankedSection) :
  Forall2 (picked mul secs sims) selected out ->
  map (nth_error secs) (map snd selected) = map Some (map ranked out).
Proof.
  induction 1 as [|e r selected out (Hc & _) Hrest IH]; simpl.
  - reflexivity.
  - now rewrite Hc, IH.
Qed.

Lemma map_Some_perm (A : Type) (l l' : list A) :
  Permutation (map Some l) (map Some l') -> Permutation l l'.
Proof.
  intros H.
  destruct l' as [|d l'].
  - apply Permutation_sym, Permutation_nil in H.
    destruct l; [constructor|discriminate].
  - pose (unwrap := fun o : option A =>
                      match o with Some a => a | None => d end).
    apply (Permutation_map unwrap) in H.
    rewrite !map_map in H. simpl in H.
    rewrite !map_id in H. exact H.
Qed.

Lemma NoDup_map_inj (A B : Type) (f : A -> B) (l : list A) :
  (forall a b, f a = f b -> a = b) -> NoDup l -> NoDup (map f l).
Proof.
  intros Hinj. induction 1 as [|x l Hx Hl IH]; simpl; constructor; auto.
  intros Hin. apply in_map_iff in Hin as (y & Hy & Hin).
  apply Hinj in Hy. now subst.
Qed.

(** C4. With a model and [0 <= top_k], the ranker returns
    [min top_k n] items for [n] sections; their ranks are 1, 2, ... in
    order, without duplicate; their weighted scores never increase
    with the rank; and when [top_k >= n] the items are the [n] sections,
    each once. *)
Theorem top_k_contiguous_ranks (m : EmbeddingModel) (top_k : Z)
    (secs : list Chunk) (query : string) :
  secs <> [] ->
  0 <= top_k ->
  exists out,
    rank_sections (Some m) top_k secs query = Ok out
    /\ Z.of_nat (length out) = Z.min top_k (Z.of_nat (length secs))
    /\ map importance_rank out = map Z.of_nat (seq 1 (length out))
    /\ NoDup (map importance_rank out)
    /\ StronglySorted
         (fun a b => (weighted (times m) b <= weighted (times m) a)%Q) out
    /\ (Z.of_nat (length secs) <= top_k ->
        length out = length secs /\ Permutation (map ranked out) secs).
Proof.
  intros _ Hk.
  destruct (rank_sections_ok m top_k secs query)
    as (out & Hout & Hpick & Hranks).
  assert (Hlen : Z.of_nat (length out)
                 = Z.min top_k (Z.of_nat (length secs))).
  { rewrite <- (Forall2_length Hpick). unfold selected_of.
    rewrite slice_to_length by exact Hk.
    f_equal. f_equal.
    rewrite <- (Permutation_length (sort_reverse_perm key_lt _)).
    apply weighted_scores_length. }
  exists out. split; [exact Hout|]. split; [exact Hlen|].
  split; [exact Hranks|]. split.
  { rewrite Hranks. apply NoDup_map_inj.
    - intros a b. apply Nat2Z.inj.
    - apply seq_NoDup. }
  split.
  { eapply picked_sorted; [exact Hpick|apply selected_sorted]. }
  intros Hall. split; [lia|].
  apply map_Some_perm.
  rewrite <- (picked_sections Hpick).
  rewrite <- (nth_error_seq_self [] secs). simpl app. simpl length.
  apply Permutation_map.
  unfold selected_of, slice_to.
  destruct (Z.ltb_spec top_k 0); [lia|].
  rewrite firstn_all2.
  - rewrite <- sort_reverse_perm.
    unfold weighted_scores_of. rewrite weigh_indices.
    rewrite length_combine.
    unfold similarities_of. rewrite scores_length, length_map, Nat.min_id.
    reflexivity.
  - rewrite <- (Permutation_length (sort_reverse_perm key_lt _)).
    rewrite weighted_scores_length. lia.
Qed.

Lemma top_k_contiguous_ranks_witness :
  exists out,
    rank_sections (Some example_model) 10 tied_sections "query" = Ok out
    /\ Z.of_nat (length out) = Z.min 10 3
    /\ map importance_rank out = map Z.of_nat (seq 1 (length out))
    /\ NoDup (map importance_rank out)
    /\ StronglySorted
         (fun a b => (weighted Qmult b <= weighted Qmult a)%Q) out
    /\ (3 <= 10 ->
        length out = 3%nat /\ Permutation (map ranked out) tied_sections).
Proof.
  apply (@top_k_contiguous_ranks example_model 10 tied_sections "query").
  - discriminate.
  - lia.
Defined.

(** * Further properties *)

(** ** Trimming *)

Lemma rstrip_idem (s : string) : rstrip (rstrip s) = rstrip s.
Proof.
  induction s as [|c s IH]; simpl; [reflexivity|].
  destruct (is_empty (rstrip s) && is_space c) eqn:E; [reflexivity|].
  simpl. now rewrite IH, E.
Qed.

Lemma lstrip_rstrip (s : string) : lstrip (rstrip (lstrip s)) = rstrip (lstrip s).
Proof.
  induction s as [|c s IH]; simpl; [reflexivity|].
  destruct (is_space c) eqn:Hc; [exact IH|].
  simpl. rewrite Hc, andb_false_r. simpl. now rewrite Hc.
Qed.

Lemma strip_idem (s : string) : strip (strip s) = strip s.
Proof.
  unfold strip. now rewrite lstrip_rstrip, rstrip_idem.
Qed.

Lemma truthy_strip (s : string) : truthy (strip s) = negb (blank s).
Proof. unfold truthy. now rewrite is_empty_strip. Qed.

Lemma blank_split_by (p : ascii -> bool) (s piece : string) :
  blank s = true -> In piece (split_by p s) -> blank piece = true.
Proof.
  unfold blank. revert piece.
  induction s as [|c s IH]; simpl; intros piece Hs Hin.
  - destruct Hin as [<-|[]]. reflexivity.
  - apply andb_true_iff in Hs as [Hc Hs].
    destruct (p c).
    + destruct Hin as [<-|Hin]; [reflexivity|auto].
    + destruct (split_by p s) as [|h t] eqn:E.
      * destruct Hin as [<-|[]]. simpl. now rewrite Hc.
      * destruct Hin as [<-|Hin].
        -- simpl. rewrite Hc. apply IH; [exact Hs|now left].
        -- apply IH; [exact Hs|now right].
Qed.

Lemma split_ws_blank (s : string) : blank s = true -> split_ws s = [].
Proof.
  unfold blank. induction s as [|c s IH]; simpl; [reflexivity|].
  intros H. apply andb_true_iff in H as [Hc Hs]. rewrite Hc. auto.
Qed.

Lemma split_ws_words_nonempty (s : string) :
  Forall (fun w => w <> "") (split_ws s).
Proof.
  induction s as [|c s IH]; simpl; [constructor|].
  destruct (is_space c); [exact IH|].
  destruct s as [|d s']; [repeat constructor; discriminate|].
  destruct (is_space d).
  - constructor; [discriminate|exact IH].
  - destruct (split_ws (String d s')) as [|w ws].
    + repeat constructor. discriminate.
    + inversion IH; subst. constructor; [discriminate|assumption].
Qed.

Lemma split_ws_nonblank (s : string) : blank s = false -> split_ws s <> [].
Proof.
  unfold blank. induction s as [|c s IH]; simpl; [discriminate|].
  destruct (is_space c) eqn:Hc; simpl; [exact IH|].
  intros _. destruct s as [|d s']; [discriminate|].
  destruct (is_space d); [discriminate|].
  destruct (split_ws (String d s')); discriminate.
Qed.

Lemma first_stripped_in_blank (lo hi : Z) (l : list string) :
  0 < lo -> Forall (fun s => blank s = true) l ->
  first_stripped_in lo hi l = None.
Proof.
  intros Hlo. induction 1 as [|s l Hs Hl IH]; simpl; [reflexivity|].
  rewrite <- is_empty_strip in Hs. apply is_empty_true in Hs.
  rewrite Hs. unfold len at 1. simpl.
  destruct (Z.leb_spec lo 0); [lia|]. simpl. exact IH.
Qed.

Lemma first_stripped_in_some (lo hi : Z) (l : list string) (s : string) :
  first_stripped_in lo hi l = Some s -> lo <= len s <= hi.
Proof.
  induction l as [|x l IH]; simpl; [discriminate|].
  destruct ((lo <=? len (strip x)) && (len (strip x) <=? hi)) eqn:E; [|exact IH].
  intros [= <-]. apply andb_true_iff in E as [H1 H2].
  apply Z.leb_le in H1, H2. lia.
Qed.

Lemma title_of_nonblank (txt : string) :
  blank txt = false -> _extract_meaningful_title txt <> "".
Proof.
  unfold _extract_meaningful_title. intros Hb H.
  destruct (first_stripped_in 20 100 _) as [s|] eqn:E1.
  { apply first_stripped_in_some in E1. subst s.
    unfold len in E1. simpl in E1. lia. }
  destruct (first_stripped_in 10 100 _) as [s|] eqn:E2.
  { apply first_stripped_in_some in E2. subst s.
    unfold len in E2. simpl in E2. lia. }
  pose proof (split_ws_nonblank _ Hb) as Hne.
  pose proof (split_ws_words_nonempty txt) as Hw.
  destruct (split_ws txt) as [|w ws]; [contradiction|].
  inversion Hw; subst.
  change (firstn 10 (w :: ws)) with (w :: firstn 9 ws) in H.
  destruct w as [|c w]; [congruence|].
  destruct (firstn 9 ws); simpl in H; discriminate.
Qed.

Lemma title_of_blank (txt : string) :
  blank txt = true -> _extract_meaningful_title txt = "".
Proof.
  unfold _extract_meaningful_title. intros Hb.
  rewrite first_stripped_in_blank; [|lia|].
  2:{ apply Forall_firstn, Forall_forall. intros s Hs.
      eapply blank_split_by; eassumption. }
  rewrite first_stripped_in_blank; [|lia|].
  2:{ apply Forall_forall. intros s Hs.
      eapply blank_split_by; eassumption. }
  rewrite (split_ws_blank _ Hb). reflexivity.
Qed.

(** X6. The title cascade returns the empty string exactly for a text
    of whitespace only: any other text gets a title. *)
Theorem meaningful_title_empty_iff (txt : string) :
  _extract_meaningful_title txt = "" <-> blank txt = true.
Proof.
  split.
  - intros H. destruct (blank txt) eqn:Hb; [reflexivity|].
    now apply title_of_nonblank in Hb.
  - apply title_of_blank.
Qed.

(** ** Segmentation: shape of the sections *)

Lemma or_else_nonempty (a b : string) : b <> "" -> or_else a b <> "".
Proof.
  unfold or_else, truthy. destruct a; simpl; [auto|discriminate].
Qed.

Lemma take_nonempty (n : nat) (s : string) :
  (0 < n)%nat -> s <> "" -> take n s <> "".
Proof.
  destruct n; [lia|]. destruct s; [congruence|]. discriminate.
Qed.

Lemma flushed_well_formed (t fallback body : string) :
  fallback <> "" -> truthy (strip body) = true ->
  well_formed (mkSection (or_else t fallback) (strip body)).
Proof.
  intros Hf Hb. unfold well_formed. simpl.
  split; [now apply or_else_nonempty|]. split.
  - unfold truthy in Hb. apply negb_true_iff in Hb.
    destruct (strip body); [discriminate|discriminate].
  - apply strip_idem.
Qed.

Lemma seg_step_well_formed (st : SegState) (raw : string) :
  Forall well_formed (sections st) ->
  Forall well_formed (sections (seg_step st raw)).
Proof.
  intros Hst. unfold seg_step.
  destruct (is_empty (strip raw)) eqn:He; [exact Hst|].
  destruct (_is_section_header (strip raw)); cbn [sections]; [|exact Hst].
  destruct (truthy (strip (text (current st)))) eqn:Ht; [|exact Hst].
  apply Forall_app. split; [exact Hst|].
  constructor; [|constructor].
  apply flushed_well_formed; [|exact Ht].
  apply take_nonempty; [lia|].
  intro E. rewrite E in He. discriminate.
Qed.

Lemma seg_loop_well_formed (lines : list string) (st : SegState) :
  Forall well_formed (sections st) ->
  Forall well_formed (sections (seg_loop lines st)).
Proof.
  unfold seg_loop. revert st.
  induction lines as [|raw lines IH]; intros st Hst; simpl; [exact Hst|].
  apply IH. now apply seg_step_well_formed.
Qed.

Lemma seg_flush_well_formed (st : SegState) :
  Forall well_formed (sections st) -> Forall well_formed (seg_flush st).
Proof.
  intros Hst. unfold seg_flush.
  destruct (truthy (strip (text (current st)))) eqn:Ht; [|exact Hst].
  apply Forall_app. split; [exact Hst|].
  constructor; [|constructor].
  apply flushed_well_formed; [discriminate|exact Ht].
Qed.

Lemma sections_well_formed (txt : string) :
  Forall well_formed (_extract_sections_from_page txt).
Proof.
  unfold _extract_sections_from_page.
  assert (H : Forall well_formed
                (seg_flush
                   (seg_loop (split newline txt)
                      (mkSeg [] (mkSection "" ""))))).
  { apply seg_flush_well_formed, seg_loop_well_formed. constructor. }
  destruct (seg_flush _) as [|s secs]; [|exact H].
  destruct (truthy (strip txt)) eqn:Ht; [|constructor].
  constructor; [|constructor].
  unfold well_formed. simpl. split; [|split].
  - apply title_of_nonblank.
    rewrite truthy_strip in Ht. now apply negb_true_iff in Ht.
  - unfold truthy in Ht. destruct (strip txt); [discriminate|discriminate].
  - apply strip_idem.
Qed.

(** X2. Every section the segmenter returns, for any page, has a
    title that is not empty and a text that is neither empty nor padded
    with whitespace. *)
Theorem sections_have_title_and_trimmed_text (txt : string) :
  Forall (fun s =>
            title s <> "" /\ text s <> "" /\ strip (text s) = text s)
    (_extract_sections_from_page txt).
Proof. exact (sections_well_formed txt). Qed.

Lemma seg_loop_blank (lines : list string) (st : SegState) :
  Forall (fun raw => blank raw = true) lines -> seg_loop lines st = st.
Proof.
  unfold seg_loop. intros Hl. revert st Hl.
  induction lines as [|raw lines IH]; intros st Hl; simpl; [reflexivity|].
  inversion Hl as [|? ? Hraw Hl']; subst.
  unfold seg_step at 2. rewrite is_empty_strip, Hraw. now apply IH.
Qed.

(** X1. The segmenter returns no section exactly for a page of
    whitespace only: any other page yields at least one. *)
Theorem no_section_iff_blank_page (txt : string) :
  _extract_sections_from_page txt = [] <-> blank txt = true.
Proof.
  unfold _extract_sections_from_page. split.
  - intros H. destruct (blank txt) eqn:Hb; [reflexivity|exfalso].
    destruct (seg_flush _); [|discriminate].
    rewrite truthy_strip, Hb in H. discriminate.
  - intros Hb.
    rewrite seg_loop_blank.
    + unfold seg_flush. simpl. now rewrite truthy_strip, Hb.
    + apply Forall_forall. intros raw Hin.
      eapply blank_split_by; eassumption.
Qed.

Lemma header_not_empty (line : string) :
  _is_section_header line = true -> is_empty line = false.
Proof.
  destruct line; [discriminate|reflexivity].
Qed.

Lemma body_of_nonblank (lines : list string) (raw : string) :
  In raw lines -> strip raw <> "" -> blank (body_of lines) = false.
Proof.
  intros Hin Hne. rewrite blank_body_of.
  destruct (forallb blank lines) eqn:E; [|reflexivity].
  rewrite forallb_forall in E. specialize (E raw Hin).
  rewrite <- is_empty_strip in E. apply is_empty_true in E.
  contradiction.
Qed.

Lemma seg_step_header (st : SegState) (raw : string) :
  _is_section_header (strip raw) = true ->
  seg_step st raw
  = mkSeg (if truthy (strip (text (current st)))
           then (sections st
                 ++ [mkSection
                       (or_else (title (current st)) (take 100 (strip raw)))
                       (strip (text (current st)))])%list
           else sections st)
      (mkSection (strip raw) "").
Proof.
  intros Hh. unfold seg_step.
  now rewrite (header_not_empty _ Hh), Hh.
Qed.

(** X3. A page that is one header line followed by body lines only
    yields exactly one section: its title is the trimmed header line
    and its text is the accumulated body. *)
Theorem titled_page_single_section (txt header : string)
    (bodies : list string) :
  split newline txt = header :: bodies ->
  _is_section_header (strip header) = true ->
  (forall raw, In raw bodies -> _is_section_header (strip raw) = false) ->
  (exists raw, In raw bodies /\ strip raw <> "") ->
  _extract_sections_from_page txt
  = [mkSection (strip header) (strip (body_of bodies))].
Proof.
  intros Hsplit Hh Hno (raw & Hin & Hne).
  assert (Hflush :
            seg_flush (seg_loop (split newline txt)
                         (mkSeg [] (mkSection "" "")))
            = [mkSection (strip header) (strip (body_of bodies))]).
  { rewrite Hsplit. unfold seg_loop. cbn [fold_left].
    rewrite (seg_step_header _ _ Hh). cbn [current text sections].
    change (truthy (strip "")) with false. cbv iota.
    fold (seg_loop bodies (mkSeg [] (mkSection (strip header) ""))).
    rewrite (seg_loop_no_header _ Hno).
    unfold seg_flush. cbn [current text sections title].
    change ("" ++ body_of bodies) with (body_of bodies).
    rewrite truthy_strip, (body_of_nonblank _ _ Hin Hne). cbn [negb app].
    unfold or_else, truthy. now rewrite (header_not_empty _ Hh). }
  unfold _extract_sections_from_page. now rewrite Hflush.
Qed.

Lemma titled_page_single_section_witness :
  _extract_sections_from_page titled_page
  = [mkSection "Methods" "we measure the approach"].
Proof.
  apply (@titled_page_single_section titled_page "Methods"
           ["we measure the approach"]).
  - reflexivity.
  - vm_compute. reflexivity.
  - intros raw [<-|[]]. vm_compute. reflexivity.
  - exists "we measure the approach". split; [now left|].
    vm_compute. discriminate.
Defined.

Lemma seg_step_extends (st : SegState) (raw : string) :
  exists more, sections (seg_step st raw) = (sections st ++ more)%list.
Proof.
  unfold seg_step.
  destruct (is_empty (strip raw)); [exists []; now rewrite app_nil_r|].
  destruct (_is_section_header (strip raw)); cbn [sections];
    [|exists []; now rewrite app_nil_r].
  destruct (truthy (strip (text (current st))));
    [eexists; reflexivity|exists []; now rewrite app_nil_r].
Qed.

Lemma seg_loop_extends (lines : list string) (st : SegState) :
  exists more, sections (seg_loop lines st) = (sections st ++ more)%list.
Proof.
  unfold seg_loop. revert st.
  induction lines as [|raw lines IH]; intros st; simpl.
  - exists []. now rewrite app_nil_r.
  - destruct (IH (seg_step st raw)) as [more Hmore].
    destruct (seg_step_extends st raw) as [more' Hmore'].
    exists (more' ++ more)%list. now rewrite Hmore, Hmore', app_assoc.
Qed.

Lemma seg_flush_extends (st : SegState) :
  exists more, seg_flush st = (sections st ++ more)%list.
Proof.
  unfold seg_flush.
  destruct (truthy (strip (text (current st))));
    [eexists; reflexivity|exists []; now rewrite app_nil_r].
Qed.

(** X4. Body text that stands before the first header of a page is
    the first section, and its title is that header cut to 100
    characters. *)
Theorem leading_body_titled_by_next_header (txt header : string)
    (lead rest : list string) :
  split newline txt = (lead ++ header :: rest)%list ->
  (forall raw, In raw lead -> _is_section_header (strip raw) = false) ->
  (exists raw, In raw lead /\ strip raw <> "") ->
  _is_section_header (strip header) = true ->
  exists more,
    _extract_sections_from_page txt
    = mkSection (take 100 (strip header)) (strip (body_of lead)) :: more.
Proof.
  intros Hsplit Hno (raw & Hin & Hne) Hh.
  assert (Hflush : exists more,
            seg_flush (seg_loop (split newline txt)
                         (mkSeg [] (mkSection "" "")))
            = mkSection (take 100 (strip header)) (strip (body_of lead))
              :: more).
  { rewrite Hsplit. unfold seg_loop. rewrite fold_left_app. cbn [fold_left].
    fold (seg_loop lead (mkSeg [] (mkSection "" ""))).
    rewrite (seg_loop_no_header _ Hno). cbn [current text sections title].
    change ("" ++ body_of lead) with (body_of lead).
    rewrite (seg_step_header _ _ Hh). cbn [current text sections title].
    rewrite truthy_strip, (body_of_nonblank _ _ Hin Hne). cbn [negb app].
    change (or_else "" (take 100 (strip header)))
      with (take 100 (strip header)).
    match goal with
    | |- context [fold_left seg_step rest ?st] =>
        fold (seg_loop rest st);
        destruct (seg_loop_extends rest st) as [more1 H1];
        destruct (seg_flush_extends (seg_loop rest st)) as [more2 H2]
    end.
    rewrite H2, H1. cbn [sections app].
    eexists. reflexivity. }
  destruct Hflush as [more Hflush].
  exists more. unfold _extract_sections_from_page. now rewrite Hflush.
Qed.

Lemma leading_body_titled_by_next_header_witness :
  exists more,
    _extract_sections_from_page led_page
    = mkSection "Methods" "opening words" :: more.
Proof.
  apply (@leading_body_titled_by_next_header led_page "Methods"
           ["opening words"] ["we measure the approach"]).
  - reflexivity.
  - intros raw [<-|[]]. vm_compute. reflexivity.
  - exists "opening words". split; [now left|]. vm_compute. discriminate.
  - vm_compute. reflexivity.
Defined.

Lemma seg_step_count (st : SegState) (raw : string) :
  (length (sections (seg_step st raw))
   <= length (sections st) + length (header_lines [raw]))%nat.
Proof.
  unfold seg_step, header_lines. cbn [filter].
  destruct (is_empty (strip raw)); [lia|].
  destruct (_is_section_header (strip raw)); cbn [sections length]; [|lia].
  destruct (truthy (strip (text (current st)))); [|lia].
  rewrite length_app. simpl. lia.
Qed.

Lemma seg_loop_count (lines : list string) (st : SegState) :
  (length (sections (seg_loop lines st))
   <= length (sections st) + length (header_lines lines))%nat.
Proof.
  unfold seg_loop. revert st.
  induction lines as [|raw lines IH]; intros st; cbn [fold_left].
  - simpl. lia.
  - specialize (IH (seg_step st raw)).
    pose proof (seg_step_count st raw) as Hs.
    unfold header_lines in *. cbn [filter] in *.
    destruct (_is_section_header (strip raw)); cbn [length] in *; lia.
Qed.

(** X5. A page yields at most one section more than it has header
    lines. *)
Theorem sections_bounded_by_headers (txt : string) :
  (length (_extract_sections_from_page txt)
   <= S (length (header_lines (split newline txt))))%nat.
Proof.
  unfold _extract_sections_from_page.
  pose proof (seg_loop_count (split newline txt)
                (mkSeg [] (mkSection "" ""))) as Hloop.
  cbn [sections length] in Hloop.
  set (st := seg_loop (split newline txt) (mkSeg [] (mkSection "" ""))) in *.
  assert (Hflush : (length (seg_flush st) <= S (length (sections st)))%nat).
  { unfold seg_flush. destruct (truthy (strip (text (current st)))); [|lia].
    rewrite length_app. simpl. lia. }
  destruct (seg_flush st) as [|s secs].
  - destruct (truthy (strip txt)); simpl; lia.
  - lia.
Qed.

(** ** Header detection: what a header looks like *)

Lemma all_of_head (p : ascii -> bool) (c : ascii) (s : string) :
  all_of p (String c s) -> p c = true.
Proof.
  unfold all_of. simpl. intros H. now apply andb_true_iff in H as [H _].
Qed.

Lemma marker_head (numeral : ascii -> bool) (c : ascii) (rest : string) :
  shape_marker numeral (String c rest) -> numeral c = true.
Proof.
  intros (ds & ws & d & tail & Hline & Hne & Hds & _).
  destruct ds as [|c' ds]; [congruence|].
  simpl in Hline. injection Hline as <- _.
  now apply all_of_head in Hds.
Qed.

Lemma header_matches_pattern (line : string) :
  _is_section_header line = true ->
  existsb (fun p => re_match p line) patterns = true.
Proof.
  unfold _is_section_header.
  destruct ((len line <? 3) || (len line >? 150)); [discriminate|].
  rewrite header_loop_flat. intros H.
  now apply andb_true_iff in H as [H _]; apply andb_true_iff in H as [H _].
Qed.

(** X7. A header starts with an upper-case ASCII letter, a digit or
    whitespace: a line that starts otherwise is never a header. *)
Theorem header_first_character (c : ascii) (rest : string) :
  _is_section_header (String c rest) = true ->
  is_AZ c = true \/ is_digit c = true \/ is_space c = true.
Proof.
  intros H. apply header_matches_pattern in H.
  unfold patterns in H. cbn [existsb] in H.
  rewrite !orb_true_iff in H.
  destruct H as [H|[H|[H|[H|[H|H]]]]]; [| | | | |discriminate].
  - apply re_match_title_words in H as (c' & r & [= <- <-] & Hc & _).
    now left.
  - apply re_match_marker, marker_head in H. auto.
  - apply re_match_marker, marker_head in H. left.
    unfold roman_char in H. rewrite !orb_true_iff, !Ascii.eqb_eq in H.
    destruct H as [[-> | ->] | ->]; reflexivity.
  - apply re_match_all_caps in H as [_ H]. apply all_of_head in H.
    unfold caps_char in H. apply orb_true_iff in H as [H|H]; auto.
  - apply re_match_two_capitalized in H
      as (a & w1 & ws & b & w2 & tail & Hline & Ha & _).
    simpl in Hline. injection Hline as <- _. now left.
Qed.

Lemma header_first_character_witness :
  is_AZ "M" = true \/ is_digit "M" = true \/ is_space "M" = true.
Proof.
  apply (@header_first_character "M" "ethods"). vm_compute. reflexivity.
Defined.

Lemma all_of_count_zero (p : ascii -> bool) (c : ascii) (s : string) :
  p c = false -> all_of p s -> count c s = 0.
Proof.
  unfold all_of, count. intros Hc.
  induction s as [|d s IH]; simpl; [reflexivity|].
  intros H. apply andb_true_iff in H as [Hd Hs].
  destruct (Ascii.eqb_spec c d) as [<-|_]; [congruence|].
  now rewrite IH.
Qed.

(** X8. A heading of 3 to 150 characters made of an upper-case
    letter followed by letters, spaces, [&] and [-] is a header, unless
    it is an upper-case line of more than 50 characters. *)
Theorem plain_heading_is_header (line : string) :
  shape_title_words line ->
  3 <= len line <= 150 ->
  (isupper line = true -> len line <= 50) ->
  _is_section_header line = true.
Proof.
  intros Hshape Hlen Hup.
  assert (Hdots : count "." line = 0).
  { destruct Hshape as (c & rest & -> & Hc & _ & Hrest).
    unfold count. cbn [count_by]. fold (count "." rest).
    rewrite (@all_of_count_zero title_char "." rest);
      [|reflexivity|exact Hrest].
    destruct (Ascii.eqb_spec "."%char c) as [E|_]; [|reflexivity].
    subst c. discriminate Hc. }
  apply re_match_title_words in Hshape.
  unfold _is_section_header.
  destruct (Z.ltb_spec (len line) 3); [lia|].
  rewrite Z.gtb_ltb. destruct (Z.ltb_spec 150 (len line)); [lia|].
  simpl orb. cbv iota.
  unfold patterns. cbn [header_loop]. rewrite Hshape, Hdots.
  destruct (isupper line) eqn:E; simpl; [|reflexivity].
  rewrite Z.gtb_ltb.
  destruct (Z.ltb_spec 50 (len line)); [specialize (Hup eq_refl); lia|].
  reflexivity.
Qed.

Lemma plain_heading_is_header_witness :
  _is_section_header "Related Work" = true.
Proof.
  apply (@plain_heading_is_header "Related Work").
  - exists "R"%char, "elated Work".
    split; [reflexivity|]. split; [reflexivity|].
    split; [discriminate|reflexivity].
  - vm_compute. split; discriminate.
  - vm_compute. discriminate.
Defined.

(** ** Section filter: how short a kept text can be *)

Lemma words_need_room (s : string) :
  2 * word_count s <= len s + 1
  /\ (match s with
      | String c _ => is_space c = true -> 2 * word_count s <= len s
      | EmptyString => True
      end).
Proof.
  unfold word_count, len.
  induction s as [|c s [IH1 IH2]]; [simpl; lia|].
  cbn [split_ws String.length].
  destruct (is_space c) eqn:Hc.
  - split; [lia|intros _; lia].
  - split; [|discriminate].
    destruct s as [|d s']; [simpl; lia|].
    destruct (is_space d) eqn:Hd.
    + specialize (IH2 eq_refl). cbn [length]. cbn [String.length] in *. lia.
    + destruct (split_ws (String d s')) as [|w ws];
        cbn [length] in *; cbn [String.length] in *; lia.
Qed.

(** X9. A text the filter keeps has at least 10 words, and so at
    least 19 characters. *)
Theorem kept_text_is_long_enough (txt : string) :
  _is_meaningful_section txt = Ok true ->
  10 <= word_count txt /\ 19 <= len txt.
Proof.
  rewrite is_meaningful_section_value. intros [= H].
  apply negb_true_iff in H.
  apply orb_false_iff in H as [H _]. apply orb_false_iff in H as [H _].
  apply Z.ltb_ge in H.
  pose proof (words_need_room txt) as [Hroom _]. lia.
Qed.

Lemma kept_text_is_long_enough_witness :
  10 <= word_count ten_words /\ 19 <= len ten_words.
Proof.
  apply (@kept_text_is_long_enough ten_words). vm_compute. reflexivity.
Defined.

(** ** Content classifier *)

(** X10. The classifier returns one of the seven labels of the weight
    table, so that a classified section never takes the default
    weight; its weight lies between 0.5 and 1.3. *)
Theorem classification_is_a_table_label (txt : string) :
  In (_classify_content_type txt) labels
  /\ exists w,
       In (_classify_content_type txt, w) weights
       /\ dict_get weights (_classify_content_type txt) 1%Q = w
       /\ (5 # 10 <= w <= 13 # 10)%Q.
Proof.
  unfold _classify_content_type.
  repeat match goal with
         | |- context [if ?b then _ else _] => destruct b
         end;
    (split; [simpl; tauto|]);
    eexists; (split; [|split; [reflexivity|split; discriminate]]);
    simpl; tauto.
Qed.

Lemma lower_char_idem (c : ascii) : lower_char (lower_char c) = lower_char c.
Proof.
  destruct c as [[] [] [] [] [] [] [] []]; reflexivity.
Qed.

Lemma lower_idem (s : string) : lower (lower s) = lower s.
Proof.
  induction s as [|c s IH]; simpl; [reflexivity|].
  now rewrite lower_char_idem, IH.
Qed.

(** X11. The label of a text is the label of its lower-case form. *)
Theorem classification_ignores_case (txt : string) :
  _classify_content_type (lower txt) = _classify_content_type txt.
Proof.
  unfold _classify_content_type. now rewrite lower_idem.
Qed.

Lemma lower_app (s t : string) : lower (s ++ t) = lower s ++ lower t.
Proof.
  induction s as [|c s IH]; simpl; [reflexivity|now rewrite IH].
Qed.

Lemma starts_with_app (k s : string) : starts_with k (k ++ s) = true.
Proof.
  induction k as [|c k IH]; simpl; [now destruct s|].
  now rewrite Ascii.eqb_refl, IH.
Qed.

Lemma contains_app (k a b : string) : contains k (a ++ k ++ b) = true.
Proof.
  induction a as [|c a IH]; simpl.
  - destruct (k ++ b) eqn:E.
    + simpl. rewrite <- E. now rewrite starts_with_app.
    + simpl. rewrite <- E. now rewrite starts_with_app.
  - rewrite IH. apply orb_true_r.
Qed.

(** X12. A text that holds ["abstract"] or ["summary"] anywhere, in
    any letter case, as a word or inside one, is labelled
    ["abstract"], whatever else it holds. *)
Theorem abstract_keyword_wins (before keyword after : string) :
  lower keyword = "abstract" \/ lower keyword = "summary" ->
  _classify_content_type (before ++ keyword ++ after) = "abstract".
Proof.
  intros Hk. unfold _classify_content_type.
  rewrite !lower_app.
  destruct Hk as [-> | ->]; rewrite contains_app;
    [reflexivity|now rewrite orb_true_r].
Qed.

Lemma abstract_keyword_wins_witness :
  _classify_content_type ("An " ++ "ABSTRACT" ++ " of the conclusion")
  = "abstract".
Proof.
  apply (@abstract_keyword_wins "An " "ABSTRACT" " of the conclusion").
  left. reflexivity.
Defined.

(** ** Query builder *)

Lemma len_app (s t : string) : len (s ++ t) = len s + len t.
Proof.
  unfold len. induction s as [|c s IH]; simpl String.length; lia.
Qed.

Lemma join_snoc (sep x p : string) (parts : list string) :
  join sep ((p :: parts) ++ [x]) = join sep (p :: parts) ++ sep ++ x.
Proof.
  revert p. induction parts as [|q parts IH]; intros p.
  - reflexivity.
  - change (join sep ((p :: q :: parts) ++ [x]))
      with (p ++ sep ++ join sep ((q :: parts) ++ [x])).
    rewrite IH.
    change (join sep (p :: q :: parts)) with (p ++ sep ++ join sep (q :: parts)).
    now rewrite !append_assoc.
Qed.

Lemma join_cons (sep p : string) (parts : list string) :
  exists tail, join sep (p :: parts) = p ++ tail.
Proof.
  destruct parts as [|q parts].
  - exists "". simpl. now rewrite append_nil_r.
  - eexists. reflexivity.
Qed.

(** X13. The query starts with the task and ends with [" | Role: "]
    and the role; it is never empty, and has at least 9 characters. *)
Theorem query_starts_with_task_ends_with_role (persona : Persona)
    (job : Job) :
  (exists middle,
      create_persona_query persona job
      = get (task job) "" ++ middle ++ " | Role: " ++ get (role persona) "")
  /\ create_persona_query persona job <> ""
  /\ 9 <= len (create_persona_query persona job).
Proof.
  assert (H : exists middle,
      create_persona_query persona job
      = get (task job) "" ++ middle ++ " | Role: " ++ get (role persona) "").
  { unfold create_persona_query.
    rewrite !append_if_spec, <- !app_assoc.
    change ([get (task job) ""] ++ ?l)%list with (get (task job) "" :: l).
    cbn [app].
    match goal with
    | |- context [join _ (?p :: (?a ++ ?b ++ ?c ++ [?x])%list)] =>
        replace (p :: (a ++ b ++ c ++ [x]))%list
          with ((p :: (a ++ b ++ c)) ++ [x])%list
          by (cbn [app]; now rewrite <- !app_assoc)
    end.
    rewrite join_snoc.
    match goal with
    | |- context [join " | " (?p :: ?l)] =>
        destruct (join_cons " | " p l) as [tail ->]
    end.
    exists tail. now rewrite !append_assoc. }
  destruct H as [middle H]. split; [now exists middle|].
  assert (Hlen : 9 <= len (create_persona_query persona job)).
  { rewrite H, !len_app.
    pose proof (len_nonneg (get (task job) "")).
    pose proof (len_nonneg middle).
    pose proof (len_nonneg (get (role persona) "")).
    change (len " | Role: ") with 9. lia. }
  split; [|exact Hlen].
  intro E. rewrite E in Hlen. unfold len in Hlen. simpl in Hlen. lia.
Qed.

(** ** Relevance ranker: which sections are ranked *)

Lemma StronglySorted_app_rel (A : Type) (R : A -> A -> Prop)
    (l1 l2 : list A) (a b : A) :
  StronglySorted R (l1 ++ l2) -> In a l1 -> In b l2 -> R a b.
Proof.
  induction l1 as [|x l1 IH]; simpl; intros Hs Ha Hb; [contradiction|].
  inversion Hs as [|? ? Hs' Hx]; subst.
  destruct Ha as [->|Ha]; [|now apply IH].
  rewrite Forall_forall in Hx. apply Hx, in_or_app. now right.
Qed.

Lemma Forall2_In_r (A B : Type) (P : A -> B -> Prop) (l : list A)
    (l' : list B) (b : B) :
  Forall2 P l l' -> In b l' -> exists a, In a l /\ P a b.
Proof.
  induction 1 as [|x y l l' Hxy Hl IH]; simpl; [contradiction|].
  intros [<-|Hb].
  - exists x. auto.
  - destruct (IH Hb) as (a & Ha & Hab). exists a. auto.
Qed.

Lemma pooled_entry (m : EmbeddingModel) (secs : list Chunk) (query : string)
    (j : nat) (wj : Q) :
  nth_error (pooled_weighted m secs query) j = Some wj ->
  In (wj, j) (weighted_scores_of m secs query).
Proof.
  unfold pooled_weighted. rewrite nth_error_map.
  destruct (nth_error (weighted_scores_of m secs query) j) as [e|] eqn:He;
    [|discriminate].
  intros [= <-]. pose proof He as Hin. apply nth_error_In in Hin.
  unfold weighted_scores_of in He. rewrite weigh_nth in He.
  destruct (nth_error _ j) as [[s c]|]; [|discriminate].
  injection He as <-. exact Hin.
Qed.

(** X14. The ranked sections are the best ones: a pooled section that
    is left out has a weighted score no higher than that of any ranked
    section. *)
Theorem unranked_sections_score_no_higher (m : EmbeddingModel) (top_k : Z)
    (secs : list Chunk) (query : string) :
  exists out sel,
    rank_sections (Some m) top_k secs query = Ok out
    /\ Forall2 (fun i r =>
                  nth_error secs i = Some (ranked r)
                  /\ nth_error (similarities_of m secs query) i
                     = Some (relevance_score r))
         sel out
    /\ forall j wj r,
         nth_error (pooled_weighted m secs query) j = Some wj ->
         ~ In j sel ->
         In r out ->
         (wj <= weighted (times m) r)%Q.
Proof.
  destruct (rank_sections_ok m top_k secs query) as (out & Hout & Hpick & _).
  exists out, (map snd (selected_of m top_k secs query)).
  split; [exact Hout|]. split; [exact (Forall2_map_snd Hpick)|].
  intros j wj r Hj Hnot Hr.
  apply pooled_entry in Hj.
  destruct (@Forall2_In_r _ _ _ _ _ r Hpick Hr) as (e & He & _ & _ & Hw).
  rewrite <- Hw.
  unfold selected_of in *.
  set (sorted := sort_reverse key_lt (weighted_scores_of m secs query)) in *.
  destruct (slice_to_firstn top_k sorted) as [n Hn]. rewrite Hn in *.
  assert (Hs : StronglySorted desc_stable (firstn n sorted ++ skipn n sorted)).
  { rewrite firstn_skipn. apply sort_reverse_desc_stable. }
  assert (Hin : In (wj, j) (firstn n sorted ++ skipn n sorted)).
  { rewrite firstn_skipn. unfold sorted.
    now rewrite <- sort_reverse_perm. }
  apply in_app_or in Hin as [Hin|Hin].
  - exfalso. apply Hnot. apply in_map_iff. now exists (wj, j).
  - destruct (@StronglySorted_app_rel _ _ _ _ _ _ Hs He Hin) as [Hlt _].
    unfold key_lt in Hlt. now apply Qltb_false in Hlt.
Qed.

Lemma NoDup_firstn (A : Type) (n : nat) (l : list A) :
  NoDup l -> NoDup (firstn n l).
Proof.
  intros Hl. revert n.
  induction Hl as [|x l Hx Hl IH]; intros [|n]; simpl; try constructor.
  - intros Hin. apply Hx.
    rewrite <- (firstn_skipn n l). apply in_or_app. now left.
  - apply IH.
Qed.

Lemma sorted_indices (m : EmbeddingModel) (secs : list Chunk)
    (query : string) :
  Permutation
    (map snd (sort_reverse key_lt (weighted_scores_of m secs query)))
    (seq 0 (length secs)).
Proof.
  rewrite <- sort_reverse_perm.
  unfold weighted_scores_of. rewrite weigh_indices, length_combine.
  unfold similarities_of. now rewrite scores_length, length_map, Nat.min_id.
Qed.

(** X15. No pooled section is ranked twice: the pooled indices of
    the output are distinct, and each is an index of the input. *)
Theorem no_section_ranked_twice (m : EmbeddingModel) (top_k : Z)
    (secs : list Chunk) (query : string) :
  exists out sel,
    rank_sections (Some m) top_k secs query = Ok out
    /\ Forall2 (fun i r =>
                  nth_error secs i = Some (ranked r)
                  /\ nth_error (similarities_of m secs query) i
                     = Some (relevance_score r))
         sel out
    /\ NoDup sel
    /\ Forall (fun i => (i < length secs)%nat) sel.
Proof.
  destruct (rank_sections_ok m top_k secs query) as (out & Hout & Hpick & _).
  exists out, (map snd (selected_of m top_k secs query)).
  split; [exact Hout|]. split; [exact (Forall2_map_snd Hpick)|].
  unfold selected_of.
  destruct (slice_to_firstn top_k
              (sort_reverse key_lt (weighted_scores_of m secs query)))
    as [n ->].
  rewrite <- firstn_map.
  pose proof (sorted_indices m secs query) as Hperm.
  split.
  - apply NoDup_firstn.
    apply (Permutation_NoDup (Permutation_sym Hperm)), seq_NoDup.
  - apply Forall_firstn, Forall_forall. intros i Hi.
    apply (Permutation_in _ Hperm), in_seq in Hi. lia.
Qed.

Lemma rank_loop_firstn (secs : list Chunk) (sims : list Q)
    (selected : list (Q * nat)) :
  forall rank out n,
    rank_loop secs sims rank selected = Ok out ->
    rank_loop secs sims rank (firstn n selected) = Ok (firstn n out).
Proof.
  induction selected as [|[w idx] selected IH]; intros rank out n H.
  - simpl in H. injection H as <-. now rewrite !firstn_nil.
  - destruct n as [|n]; [reflexivity|].
    cbn [rank_loop firstn] in *.
    destruct (index secs idx) as [c|]; [|discriminate].
    destruct (index sims idx) as [s|]; [|discriminate].
    cbn [bind] in *.
    destruct (rank_loop secs sims (rank + 1) selected) as [rest|] eqn:E;
      [|discriminate].
    cbn [bind] in H. injection H as <-.
    rewrite (IH _ _ n E). reflexivity.
Qed.

(** X16. Raising [top_k] only appends to the ranking: the result for
    [k] is the first [k] items of the result for any larger value. *)
Theorem larger_top_k_extends_ranking (m : EmbeddingModel) (k k' : Z)
    (secs : list Chunk) (query : string) :
  0 <= k <= k' ->
  exists out out',
    rank_sections (Some m) k secs query = Ok out
    /\ rank_sections (Some m) k' secs query = Ok out'
    /\ out = firstn (Z.to_nat k) out'.
Proof.
  intros Hk.
  destruct (rank_sections_ok m k' secs query) as (out' & Hout' & _).
  exists (firstn (Z.to_nat k) out'), out'.
  split; [|split; [exact Hout'|reflexivity]].
  unfold rank_sections in *.
  destruct (negb (nonempty secs)).
  - injection Hout' as <-. now rewrite firstn_nil.
  - unfold slice_to in *.
    destruct (Z.ltb_spec k 0); [lia|].
    destruct (Z.ltb_spec k' 0); [lia|].
    apply (rank_loop_firstn _ _ _ _ (Z.to_nat k)) in Hout'.
    rewrite firstn_firstn in Hout'.
    replace (Nat.min (Z.to_nat k) (Z.to_nat k')) with (Z.to_nat k) in Hout'
      by lia.
    exact Hout'.
Qed.

Lemma larger_top_k_extends_ranking_witness :
  exists out out',
    rank_sections (Some example_model) 1 tied_sections "query" = Ok out
    /\ rank_sections (Some example_model) 10 tied_sections "query" = Ok out'
    /\ out = firstn (Z.to_nat 1) out'.
Proof.
  apply (@larger_top_k_extends_ranking example_model 1 10 tied_sections
           "query").
  lia.
Defined.

(** X17. A negative [top_k] does not empty the ranking: of [n]
    sections, the [n + top_k] best are returned, none when that is
    negative. *)
Theorem negative_top_k_drops_from_end (m : EmbeddingModel) (top_k : Z)
    (secs : list Chunk) (query : string) :
  top_k < 0 ->
  exists out,
    rank_sections (Some m) top_k secs query = Ok out
    /\ Z.of_nat (length out) = Z.max 0 (Z.of_nat (length secs) + top_k).
Proof.
  intros Hk.
  destruct (rank_sections_ok m top_k secs query) as (out & Hout & Hpick & _).
  exists out. split; [exact Hout|].
  rewrite <- (Forall2_length Hpick). unfold selected_of, slice_to.
  destruct (Z.ltb_spec top_k 0); [|lia].
  rewrite length_firstn.
  rewrite <- (Permutation_length (sort_reverse_perm key_lt _)).
  rewrite weighted_scores_length. lia.
Qed.

Lemma negative_top_k_drops_from_end_witness :
  exists out,
    rank_sections (Some example_model) (-1) tied_sections "query" = Ok out
    /\ Z.of_nat (length out) = Z.max 0 (3 + -1).
Proof.
  apply (@negative_top_k_drops_from_end example_model (-1) tied_sections
           "query").
  lia.
Defined.

(** ** Paths *)

Section SplitFacts.

Variable p : ascii -> bool.

Lemma split_by_nonempty (s : string) : split_by p s <> [].
Proof.
  destruct s as [|c s]; simpl; [discriminate|].
  destruct (p c); [discriminate|].
  destruct (split_by p s); discriminate.
Qed.

Lemma last_cons_nonempty (A : Type) (x d : A) (l : list A) :
  l <> [] -> last (x :: l) d = last l d.
Proof. destruct l; [congruence|reflexivity]. Qed.

Lemma split_by_last_suffix (s : string) :
  exists d,
    s = d ++ last (split_by p s) ""
    /\ (tl (split_by p s) = [] -> d = "").
Proof.
  induction s as [|c s (d & Hd & Hone)]; simpl.
  - exists "". auto.
  - destruct (p c).
    + rewrite last_cons_nonempty by apply split_by_nonempty.
      exists (String c d). split; [simpl; now rewrite <- Hd|].
      simpl. intros E. now apply split_by_nonempty in E.
    + pose proof (split_by_nonempty s) as Hne.
      destruct (split_by p s) as [|h t]; [congruence|].
      destruct t as [|h' t].
      * simpl in *. rewrite (Hone eq_refl) in Hd. simpl in Hd. subst h.
        exists "". auto.
      * exists (String c d). split; [|discriminate].
        simpl. rewrite Hd at 1. reflexivity.
Qed.

Lemma split_by_app_sep_tl (x b : string) (c : ascii) :
  p c = true -> tl (split_by p (x ++ String c b)) <> [].
Proof.
  intros Hc. induction x as [|e x IH]; simpl.
  - rewrite Hc. simpl. apply split_by_nonempty.
  - destruct (p e); [simpl; apply split_by_nonempty|].
    destruct (split_by p (x ++ String c b)) as [|h t]; [simpl in IH; congruence|].
    exact IH.
Qed.

Lemma split_by_app_sep_last (x b : string) (c : ascii) :
  p c = true ->
  last (split_by p (x ++ String c b)) "" = last (split_by p b) "".
Proof.
  intros Hc. induction x as [|e x IH]; simpl.
  - rewrite Hc. apply last_cons_nonempty, split_by_nonempty.
  - destruct (p e).
    + rewrite last_cons_nonempty by apply split_by_nonempty. exact IH.
    + pose proof (split_by_app_sep_tl x b Hc) as Htl.
      destruct (split_by p (x ++ String c b)) as [|h t];
        [simpl in Htl; congruence|].
      simpl in Htl. rewrite <- IH.
      destruct t; [congruence|reflexivity].
Qed.

End SplitFacts.

Lemma ends_with_sep_split (a : string) :
  ends_with_sep a = true -> exists x, a = x ++ "/".
Proof.
  induction a as [|c a IH]; simpl; [discriminate|].
  destruct a as [|d a].
  - unfold is_sep. intros H. apply Ascii.eqb_eq in H as <-. now exists "".
  - intros H. destruct (IH H) as [x Hx]. exists (String c x).
    simpl. now rewrite <- Hx.
Qed.

Lemma basename_after_sep (x b : string) :
  basename (x ++ "/" ++ b) = basename b.
Proof.
  unfold basename. simpl. now apply split_by_app_sep_last.
Qed.

Lemma basename_join (a b : string) :
  basename (path_join a b) = basename b.
Proof.
  unfold path_join.
  destruct (starts_with "/" b); [reflexivity|].
  destruct (is_empty a) eqn:Ea; simpl.
  - apply is_empty_true in Ea. now subst a.
  - destruct (ends_with_sep a) eqn:Es.
    + apply ends_with_sep_split in Es as [x ->].
      rewrite append_assoc. apply basename_after_sep.
    + apply basename_after_sep.
Qed.

Lemma last_in (A : Type) (d : A) (l : list A) : l <> [] -> In (last l d) l.
Proof.
  induction l as [|x l IH]; [congruence|]. intros _.
  destruct l as [|y l]; [now left|].
  right. apply IH. discriminate.
Qed.

(** X18. The document name of a path holds no [/] and ends the path;
    joining a directory in front of a filename does not change the
    document name. *)
Theorem basename_is_last_component (path : string) :
  count "/" (basename path) = 0
  /\ (exists dir, path = dir ++ basename path)
  /\ forall dir, basename (path_join dir path) = basename path.
Proof.
  split; [|split].
  - unfold basename, count.
    apply (count_by_split_by is_sep path).
    apply last_in, split_by_nonempty.
  - destruct (split_by_last_suffix is_sep path) as (d & Hd & _).
    now exists d.
  - intros dir. apply basename_join.
Qed.

(** ** Truncation of the refined text *)

Lemma take_split (n : nat) (s : string) :
  exists tail, s = take n s ++ tail.
Proof.
  revert s. induction n as [|n IH]; intros s.
  - exists s. now destruct s.
  - destruct s as [|c s]; [now exists ""|].
    destruct (IH s) as [tail Ht]. exists tail. simpl. now rewrite <- Ht.
Qed.

Lemma len_take (n : nat) (s : string) :
  len (take n s) = Z.min (Z.of_nat n) (len s).
Proof.
  unfold len. revert s.
  induction n as [|n IH]; intros [|c s]; simpl String.length; try lia.
  specialize (IH s). lia.
Qed.

Lemma refine_text_len_le (txt : string) : len (refine_text txt) <= 503.
Proof.
  unfold refine_text. rewrite Z.gtb_ltb.
  destruct (Z.ltb_spec 500 (len txt)); [|lia].
  rewrite len_app, len_take. change (len "...") with 3. lia.
Qed.

(** X19. The refined text has at most 503 characters: a text of up
    to 500 characters is kept as it is, a longer one becomes its first
    500 characters and ["..."]. *)
Theorem refined_text_is_bounded (txt : string) :
  len (refine_text txt) <= 503
  /\ (len txt <= 500 -> refine_text txt = txt)
  /\ (500 < len txt ->
      len (refine_text txt) = 503
      /\ exists head tail,
           txt = head ++ tail /\ len head = 500
           /\ refine_text txt = head ++ "...").
Proof.
  unfold refine_text. rewrite Z.gtb_ltb.
  destruct (Z.ltb_spec 500 (len txt)) as [Hlong|Hshort].
  - assert (Hlen : len (take 500 txt ++ "...") = 503).
    { rewrite len_app, len_take. change (len "...") with 3. lia. }
    split; [lia|]. split; [lia|]. intros _. split; [exact Hlen|].
    destruct (take_split 500 txt) as [tail Ht].
    exists (take 500 txt), tail. split; [exact Ht|]. split; [|reflexivity].
    rewrite len_take. lia.
  - split; [lia|]. split; [reflexivity|lia].
Qed.

Lemma refined_text_is_bounded_witness : refine_text "short" = "short".
Proof.
  destruct (refined_text_is_bounded "short") as (_ & Hshort & _).
  apply Hshort. vm_compute. discriminate.
Defined.

(** ** Chunk extraction *)

Lemma sections_loop_keeps (doc : string) (page_num : Z)
    (secs : list PageSection) :
  forall chunks kept,
    keep_sections doc page_num secs = Ok kept ->
    sections_loop doc page_num secs chunks = ((chunks ++ kept)%list, false).
Proof.
  induction secs as [|s secs IH]; intros chunks kept H.
  - injection H as <-. simpl. now rewrite app_nil_r.
  - cbn [keep_sections sections_loop] in *.
    destruct (_is_meaningful_section (text s)) as [keep|e]; [|discriminate].
    cbn [bind] in H.
    destruct (keep_sections doc page_num secs) as [rest|e]; [|discriminate].
    cbn [bind] in H. injection H as <-.
    rewrite (IH _ rest eq_refl).
    destruct keep; [now rewrite <- app_assoc|reflexivity].
Qed.

Lemma pages_loop_extracted (doc : string) (page_num : Z) (t : option string)
    (pages : list PageRead) (chunks : list Chunk) :
  pages_loop doc page_num (Extracted t :: pages) chunks
  = pages_loop doc (page_num + 1) pages
      (chunks ++ page_kept doc page_num t)%list.
Proof.
  unfold page_kept, page_chunks. cbn [pages_loop].
  destruct t as [txt|]; cbn [get].
  - destruct (is_empty txt) eqn:E; [now rewrite app_nil_r|].
    destruct (keep_sections_total doc page_num
                (_extract_sections_from_page txt)) as (kept & Hk & _).
    rewrite Hk, (sections_loop_keeps _ _ _ chunks Hk). reflexivity.
  - simpl. now rewrite app_nil_r.
Qed.

Lemma pages_loop_readable (doc : string) (pages : list PageRead) :
  forall page_num chunks,
    pages_loop doc page_num pages chunks
    = (chunks ++ pages_kept doc page_num (readable_prefix pages))%list.
Proof.
  induction pages as [|[|t] pages IH]; intros page_num chunks.
  - simpl. now rewrite app_nil_r.
  - simpl. now rewrite app_nil_r.
  - rewrite pages_loop_extracted, IH.
    cbn [readable_prefix pages_kept]. now rewrite app_assoc.
Qed.

(** X20. The chunks of a file are those of its pages before the first
    page whose extraction fails, page by page, numbered from 1; a file
    that cannot be opened gives none.  The text heuristics never end
    the loop. *)
Theorem extraction_stops_at_first_failing_page
    (pdfplumber_open : string -> PdfFile) (pdf_path : string) :
  extract_text_chunks pdfplumber_open pdf_path
  = match pdfplumber_open pdf_path with
    | OpenFails => []
    | Opened pages =>
        pages_kept (basename pdf_path) 1 (readable_prefix pages)
    end
  /\ forall texts rest,
       pdfplumber_open pdf_path
       = Opened (map Extracted texts ++ ExtractFails :: rest) ->
       extract_text_chunks pdfplumber_open pdf_path
       = pages_kept (basename pdf_path) 1 texts.
Proof.
  assert (H : extract_text_chunks pdfplumber_open pdf_path
              = match pdfplumber_open pdf_path with
                | OpenFails => []
                | Opened pages =>
                    pages_kept (basename pdf_path) 1 (readable_prefix pages)
                end).
  { unfold extract_text_chunks.
    destruct (pdfplumber_open pdf_path); [reflexivity|].
    now rewrite pages_loop_readable. }
  split; [exact H|].
  intros texts rest Hopen. rewrite H, Hopen. f_equal.
  clear. induction texts as [|t texts IH]; simpl; [reflexivity|].
  now rewrite IH.
Qed.

Lemma extraction_stops_at_first_failing_page_witness :
  extract_text_chunks (pdfplumber_open example_world) "pdfs/a.pdf"
  = pages_kept "a.pdf" 1 [Some example_page].
Proof.
  destruct (extraction_stops_at_first_failing_page
              (pdfplumber_open example_world) "pdfs/a.pdf") as [_ H].
  apply (H [Some example_page] []). reflexivity.
Defined.

Lemma keep_sections_ok (doc : string) (page_num : Z)
    (secs : list PageSection) :
  Forall well_formed secs ->
  forall kept,
    keep_sections doc page_num secs = Ok kept ->
    Forall (chunk_ok doc page_num page_num) kept.
Proof.
  induction 1 as [|s secs (Ht & _ & Hs) Hsecs IH]; intros kept H.
  - injection H as <-. constructor.
  - cbn [keep_sections] in H.
    destruct (_is_meaningful_section (text s)) as [keep|e] eqn:Hkeep;
      [|discriminate].
    cbn [bind] in H.
    destruct (keep_sections doc page_num secs) as [rest|e]; [|discriminate].
    cbn [bind] in H. injection H as <-.
    specialize (IH rest eq_refl).
    destruct keep; [|exact IH].
    constructor; [|exact IH].
    unfold chunk_ok. cbn [document page content_type section_title chunk_text].
    repeat split; auto; lia.
Qed.

Lemma page_kept_ok (doc : string) (page_num : Z) (t : option string) :
  Forall (chunk_ok doc page_num page_num) (page_kept doc page_num t).
Proof.
  unfold page_kept, page_chunks.
  destruct (is_empty (get t "")); [constructor|].
  destruct (keep_sections doc page_num _) as [kept|e] eqn:E; [|constructor].
  eapply keep_sections_ok; [|exact E].
  apply sections_well_formed.
Qed.

Lemma chunk_ok_widen (doc : string) (lo hi lo' hi' : Z) (c : Chunk) :
  lo' <= lo -> hi <= hi' -> chunk_ok doc lo hi c -> chunk_ok doc lo' hi' c.
Proof.
  unfold chunk_ok. intros ? ? (? & ? & ?). repeat split; try tauto; lia.
Qed.

Lemma pages_kept_ok (doc : string) (texts : list (option string)) :
  forall page_num,
    Forall (chunk_ok doc page_num (page_num + Z.of_nat (length texts) - 1))
      (pages_kept doc page_num texts).
Proof.
  induction texts as [|t texts IH]; intros page_num; cbn [pages_kept].
  - constructor.
  - apply Forall_app. split.
    + eapply Forall_impl; [|apply page_kept_ok].
      intros c. apply chunk_ok_widen; cbn [length]; lia.
    + eapply Forall_impl; [|apply (IH (page_num + 1))].
      intros c. apply chunk_ok_widen; cbn [length]; lia.
Qed.

Lemma pages_kept_sorted (doc : string) (texts : list (option string)) :
  forall page_num,
    StronglySorted (fun a b => page a <= page b)
      (pages_kept doc page_num texts).
Proof.
  induction texts as [|t texts IH]; intros page_num; cbn [pages_kept].
  - constructor.
  - pose proof (page_kept_ok doc page_num t) as Hhere.
    pose proof (pages_kept_ok doc texts (page_num + 1)) as Hlater.
    specialize (IH (page_num + 1)).
    induction Hhere as [|c here (_ & Hc & _) Hhere IHhere]; [exact IH|].
    cbn [app]. constructor; [exact IHhere|].
    apply Forall_app. split.
    + eapply Forall_impl; [|exact Hhere].
      intros a (_ & Ha & _). lia.
    + eapply Forall_impl; [|exact Hlater].
      intros a (_ & Ha & _). lia.
Qed.

Lemma readable_prefix_length (pages : list PageRead) :
  (length (readable_prefix pages) <= length pages)%nat.
Proof.
  induction pages as [|[|t] pages IH]; simpl; lia.
Qed.

Lemma extract_text_chunks_ok (pdfplumber_open : string -> PdfFile)
    (pdf_path : string) :
  Forall (chunk_ok (basename pdf_path) 1
            (page_count (pdfplumber_open pdf_path)))
    (extract_text_chunks pdfplumber_open pdf_path).
Proof.
  unfold extract_text_chunks, page_count.
  destruct (pdfplumber_open pdf_path) as [|pages]; [constructor|].
  rewrite pages_loop_readable. cbn [app].
  eapply Forall_impl; [|apply pages_kept_ok].
  intros c. apply chunk_ok_widen; [lia|].
  pose proof (readable_prefix_length pages). lia.
Qed.

(** X21. Every chunk of a file carries the document name of the
    path, a page number between 1 and the number of pages, the label
    of its text, a title that is not empty and a trimmed text of at
    least 10 words. *)
Theorem extracted_chunks_are_labelled (pdfplumber_open : string -> PdfFile)
    (pdf_path : string) :
  Forall (fun c =>
            document c = basename pdf_path
            /\ 1 <= page c <= page_count (pdfplumber_open pdf_path)
            /\ content_type c = Some (_classify_content_type (chunk_text c))
            /\ section_title c <> ""
            /\ strip (chunk_text c) = chunk_text c
            /\ 10 <= word_count (chunk_text c))
    (extract_text_chunks pdfplumber_open pdf_path).
Proof.
  eapply Forall_impl; [|apply extract_text_chunks_ok].
  intros c (Hd & Hp & Hc & Ht & Hs & Hk).
  repeat split; try assumption; try lia.
  rewrite is_meaningful_section_value in Hk. injection Hk as Hk.
  apply negb_true_iff in Hk.
  apply orb_false_iff in Hk as [Hk _]. apply orb_false_iff in Hk as [Hk _].
  now apply Z.ltb_ge in Hk.
Qed.

(** X22. The chunks of a file come in page order. *)
Theorem extracted_chunks_follow_page_order
    (pdfplumber_open : string -> PdfFile) (pdf_path : string) :
  StronglySorted (fun a b => page a <= page b)
    (extract_text_chunks pdfplumber_open pdf_path).
Proof.
  unfold extract_text_chunks.
  destruct (pdfplumber_open pdf_path) as [|pages]; [constructor|].
  rewrite pages_loop_readable. apply pages_kept_sorted.
Qed.

(** ** Orchestrator *)

Lemma documents_loop_named (w : World) (pdf_dir : string)
    (docs : list DocRef) (names : list string) :
  named docs names ->
  forall all_sections processed_docs,
    documents_loop w pdf_dir docs all_sections processed_docs
    = Done ((all_sections ++ pooled w pdf_dir names)%list,
            (processed_docs ++ found w pdf_dir names)%list).
Proof.
  unfold pooled, found.
  induction 1 as [|doc name docs names Hdoc Hdocs IH];
    intros all_sections processed_docs.
  - simpl. now rewrite !app_nil_r.
  - cbn [documents_loop filter]. rewrite Hdoc.
    destruct (path_exists w (path_join pdf_dir name)).
    + rewrite IH. cbn [flat_map]. now rewrite <- !app_assoc.
    + apply IH.
Qed.

Lemma documents_loop_crash (w : World) (pdf_dir : string)
    (docs : list DocRef) :
  forall all_sections processed_docs e,
    documents_loop w pdf_dir docs all_sections processed_docs = Crash e ->
    e = TypeError /\ In (DocDict None) docs.
Proof.
  induction docs as [|doc docs IH]; intros all_sections processed_docs e H.
  - discriminate.
  - cbn [documents_loop] in H.
    destruct doc as [name|[name|]]; cbn [filename_of] in H.
    + destruct (path_exists w _); apply IH in H as [-> Hin];
        (split; [reflexivity|now right]).
    + destruct (path_exists w _); apply IH in H as [-> Hin];
        (split; [reflexivity|now right]).
    + injection H as <-. split; [reflexivity|now left].
Qed.

Lemma named_exists (docs : list DocRef) :
  ~ In (DocDict None) docs -> exists names, named docs names.
Proof.
  induction docs as [|doc docs IH]; intros Hnot.
  - exists []. constructor.
  - destruct IH as [names Hnames]; [intros H; apply Hnot; now right|].
    destruct doc as [name|[name|]].
    + exists (name :: names). now constructor.
    + exists (name :: names). now constructor.
    + exfalso. apply Hnot. now left.
Qed.

Lemma named_no_bare_dict (docs : list DocRef) (names : list string) :
  named docs names -> ~ In (DocDict None) docs.
Proof.
  induction 1 as [|doc name docs names Hdoc Hdocs IH]; [tauto|].
  intros [->|Hin]; [discriminate|tauto].
Qed.

Lemma ensure_model_done (w : World) (sys sys' : System) :
  ensure_model w sys = Done sys' ->
  loadable w sys
  /\ (exists m, model sys' = Some m)
  /\ top_k sys' = top_k sys
  /\ (model sys <> None -> sys' = sys).
Proof.
  unfold ensure_model, loadable.
  destruct (model sys) as [m|] eqn:Hm.
  - intros [= <-]. rewrite Hm. repeat split; eauto. left. discriminate.
  - destruct (sentence_transformer w (model_name sys)) as [m|]; [|discriminate].
    intros [= <-]. cbn [model top_k]. repeat split; eauto; [|congruence].
    right. discriminate.
Qed.

Lemma ensure_model_crash (w : World) (sys : System) (e : RunError) :
  ensure_model w sys = Crash e -> e = LoadError /\ ~ loadable w sys.
Proof.
  unfold ensure_model, loadable.
  destruct (model sys); [discriminate|].
  destruct (sentence_transformer w (model_name sys)); [discriminate|].
  intros [= <-]. split; [reflexivity|]. intros [H|H]; congruence.
Qed.

(** What a completed run returns. *)
Lemma process_documents_done (w : World) (sys sys' : System)
    (input_data : InputData) (o : Output) :
  process_documents w sys input_data = Done (o, sys') ->
  let persona := get (persona input_data) empty_persona in
  let job := get (job_to_be_done input_data) empty_job in
  let pdf_dir := get (pdf_directory input_data) "pdfs" in
  exists m names out,
    ensure_model w sys = Done sys'
    /\ model sys' = Some m
    /\ named (get (documents input_data) []) names
    /\ rank_sections (Some m) (top_k sys) (pooled w pdf_dir names)
         (create_persona_query persona job) = Ok out
    /\ input_documents (metadata o) = found w pdf_dir names
    /\ extracted_sections o
       = map (fun s =>
                mkExtracted (document (ranked s)) (section_title (ranked s))
                  (importance_rank s) (page (ranked s)))
           out
    /\ subsection_analysis o
       = map (fun s =>
                mkAnalysis (document (ranked s))
                  (refine_text (chunk_text (ranked s))) (page (ranked s)))
           out.
Proof.
  unfold process_documents. intros H.
  destruct (ensure_model w sys) as [sys1|e] eqn:Hsys; [|discriminate].
  destruct (documents_loop w _ _ [] []) as [[all_sections processed]|e]
    eqn:Hloop; [|discriminate].
  destruct (rank_sections _ _ _ _) as [out|e] eqn:Hrank; [|discriminate].
  injection H as <- <-.
  destruct (ensure_model_done _ _ Hsys) as (_ & (m & Hm) & Htop & _).
  destruct (named_exists (get (documents input_data) [])) as [names Hnames].
  { intros Hin.
    revert Hloop. clear -Hin.
    generalize (@nil Chunk) (@nil string).
    induction (get (documents input_data) []) as [|doc docs IH];
      [contradiction|].
    intros a p. cbn [documents_loop].
    destruct Hin as [->|Hin]; [discriminate|].
    destruct (filename_of doc); [|discriminate].
    destruct (path_exists w _); now apply IH. }
  rewrite (documents_loop_named w _ Hnames) in Hloop.
  cbn [app] in Hloop. injection Hloop as <- <-.
  rewrite Hm, Htop in Hrank.
  exists m, names, out. cbn. repeat split; assumption.
Qed.

(** A run over one readable file with a failing second page, one
    missing file and one file that cannot be opened. *)
Example example_run :
  process_documents example_world example_system example_input
  = Done (example_output, example_system_loaded).
Proof. vm_compute. reflexivity. Qed.

(** X23. A run completes exactly when the model is loaded or can be
    loaded and no document is a dict without filename; a missing or
    unreadable file never ends it.  A run that does not complete ends
    on the load error or on the type error of the path join. *)
Theorem run_completes_iff (w : World) (sys : System)
    (input_data : InputData) :
  ((exists result, process_documents w sys input_data = Done result)
   <-> loadable w sys
       /\ ~ In (DocDict None) (get (documents input_data) []))
  /\ forall e,
       process_documents w sys input_data = Crash e ->
       e = LoadError \/ e = TypeError.
Proof.
  split; [split|].
  - intros [[o sys'] H].
    apply process_documents_done in H
      as (m & names & out & Hsys & _ & Hnames & _).
    split.
    + now apply ensure_model_done in Hsys.
    + now apply named_no_bare_dict in Hnames.
  - intros [Hload Hdocs].
    unfold process_documents.
    destruct (ensure_model w sys) as [sys1|e] eqn:Hsys.
    + destruct (named_exists _ Hdocs) as [names Hnames].
      rewrite (documents_loop_named w _ Hnames).
      destruct (ensure_model_done _ _ Hsys) as (_ & (m & Hm) & _).
      rewrite Hm.
      destruct (rank_sections_ok m (top_k sys1) ([] ++ pooled w
                  (get (pdf_directory input_data) "pdfs") names)
                  (create_persona_query
                     (get (persona input_data) empty_persona)
                     (get (job_to_be_done input_data) empty_job)))
        as (out & -> & _).
      eexists. reflexivity.
    + apply ensure_model_crash in Hsys as [_ Hno]. contradiction.
  - intros e. unfold process_documents.
    destruct (ensure_model w sys) as [sys1|e1] eqn:Hsys.
    + destruct (documents_loop w _ _ [] []) as [[all_sections processed]|e2]
        eqn:Hloop.
      * destruct (ensure_model_done _ _ Hsys) as (_ & (m & Hm) & _).
        rewrite Hm.
        destruct (rank_sections_ok m (top_k sys1) all_sections
                    (create_persona_query
                       (get (persona input_data) empty_persona)
                       (get (job_to_be_done input_data) empty_job)))
          as (out & -> & _).
        discriminate.
      * intros [= <-]. apply documents_loop_crash in Hloop as [-> _].
        now right.
    + intros [= <-]. apply ensure_model_crash in Hsys as [-> _]. now left.
Qed.

Lemma run_completes_iff_witness :
  exists result,
    process_documents example_world example_system example_input
    = Done result.
Proof.
  destruct (run_completes_iff example_world example_system example_input)
    as [[_ H] _].
  apply H. split.
  - right. discriminate.
  - simpl. intuition discriminate.
Defined.

(** X24. In the output of a run the two lists are parallel: same
    length, same document and page at each position; the refined texts
    have at most 503 characters; the ranks are 1, 2, ... in order; and
    for [top_k >= 0] there are at most [top_k] entries. *)
Theorem output_lists_are_parallel (w : World) (sys sys' : System)
    (input_data : InputData) (o : Output) :
  process_documents w sys input_data = Done (o, sys') ->
  Forall2 (fun e a =>
             extracted_document e = analysis_document a
             /\ extracted_page_number e = analysis_page_number a
             /\ len (refined_text a) <= 503)
    (extracted_sections o) (subsection_analysis o)
  /\ map extracted_importance_rank (extracted_sections o)
     = map Z.of_nat (seq 1 (length (extracted_sections o)))
  /\ (0 <= top_k sys ->
      Z.of_nat (length (extracted_sections o)) <= top_k sys).
Proof.
  intros H.
  apply process_documents_done in H
    as (m & names & out & _ & _ & _ & Hrank & _ & -> & ->).
  destruct (rank_sections_ok m (top_k sys)
              (pooled w (get (pdf_directory input_data) "pdfs") names)
              (create_persona_query
                 (get (persona input_data) empty_persona)
                 (get (job_to_be_done input_data) empty_job)))
    as (out' & Hout' & Hpick & Hranks).
  rewrite Hrank in Hout'. injection Hout' as <-.
  split; [|split].
  - clear. induction out as [|s out IH]; simpl; constructor; [|exact IH].
    cbn. repeat split. apply refine_text_len_le.
  - rewrite map_map, length_map. cbn [extracted_importance_rank].
    exact Hranks.
  - intros Hk. rewrite length_map, <- (Forall2_length Hpick).
    unfold selected_of. rewrite slice_to_length by exact Hk. lia.
Qed.

Lemma output_lists_are_parallel_witness :
  Forall2 (fun e a =>
             extracted_document e = analysis_document a
             /\ extracted_page_number e = analysis_page_number a
             /\ len (refined_text a) <= 503)
    (extracted_sections example_output) (subsection_analysis example_output)
  /\ map extracted_importance_rank (extracted_sections example_output)
     = map Z.of_nat (seq 1 (length (extracted_sections example_output)))
  /\ (0 <= 10 ->
      Z.of_nat (length (extracted_sections example_output)) <= 10).
Proof.
  apply (@output_lists_are_parallel example_world example_system
           example_system_loaded example_input example_output).
  vm_compute. reflexivity.
Defined.

(** X25. The output lists as input documents the filenames whose
    path exists, in the order given, whether or not the file could be
    read; and every extracted section names the document of one of
    them. *)
Theorem input_documents_are_the_files_found (w : World) (sys sys' : System)
    (input_data : InputData) (o : Output) :
  process_documents w sys input_data = Done (o, sys') ->
  exists names,
    named (get (documents input_data) []) names
    /\ input_documents (metadata o)
       = filter
           (fun name =>
              path_exists w
                (path_join (get (pdf_directory input_data) "pdfs") name))
           names
    /\ Forall (fun e =>
                 exists name,
                   In name (input_documents (metadata o))
                   /\ extracted_document e = basename name)
         (extracted_sections o).
Proof.
  intros H.
  apply process_documents_done in H
    as (m & names & out & _ & _ & Hnames & Hrank & Hdocs & -> & _).
  exists names. split; [exact Hnames|]. split; [exact Hdocs|].
  rewrite Hdocs.
  destruct (rank_sections_ok m (top_k sys)
              (pooled w (get (pdf_directory input_data) "pdfs") names)
              (create_persona_query
                 (get (persona input_data) empty_persona)
                 (get (job_to_be_done input_data) empty_job)))
    as (out' & Hout' & Hpick & _).
  rewrite Hrank in Hout'. injection Hout' as <-.
  apply Forall_forall. intros e He.
  apply in_map_iff in He as (s & <- & Hs).
  cbn [extracted_document].
  destruct (@Forall2_In_r _ _ _ _ _ s Hpick Hs) as (entry & _ & Hc & _).
  apply nth_error_In in Hc.
  unfold pooled in Hc. apply in_flat_map in Hc as (name & Hname & Hc).
  exists name. split; [exact Hname|].
  pose proof (extract_text_chunks_ok (pdfplumber_open w)
                (path_join (get (pdf_directory input_data) "pdfs") name))
    as Hok.
  rewrite Forall_forall in Hok. destruct (Hok _ Hc) as (Hd & _).
  rewrite Hd. apply basename_join.
Qed.

Lemma input_documents_are_the_files_found_witness :
  exists names,
    named (get (documents example_input) []) names
    /\ input_documents (metadata example_output)
       = filter
           (fun name =>
              path_exists example_world
                (path_join (get (pdf_directory example_input) "pdfs") name))
           names
    /\ Forall (fun e =>
                 exists name,
                   In name (input_documents (metadata example_output))
                   /\ extracted_document e = basename name)
         (extracted_sections example_output).
Proof.
  apply (@input_documents_are_the_files_found example_world example_system
           example_system_loaded example_input example_output).
  vm_compute. reflexivity.
Defined.
